(** * DragService: the drag tracking engine of [useOrderableList]

    A shallow embedding of [src/lib/DragService.ts] and of the parts of the
    [useOrderableList] hook that drive it.

    Conventions of the embedding:
    - a JavaScript [number] that holds a pixel coordinate is a rational [Q]
      (exact arithmetic; rounding of IEEE doubles is not modelled), one that
      holds an array index is an integer [Z];
    - [T | undefined] is [option T]; JavaScript truthiness is written out
      where the source relies on it ([!x], [x || d]);
    - the engine is a mutable object: its methods are computations in a
      state-and-exception monad over a [World] that holds the engine, the
      DOM elements it references, the listeners of [window] and the trace of
      the effects performed so far. *)

From Stdlib Require Import QArith Lqa ZArith Lia List String Bool.
From Stdlib Require Import Permutation.
From stdpp Require Import base option list gmap strings.

Local Open Scope string_scope.
Local Open Scope list_scope.
Local Open Scope Z_scope.

(** ** Numbers *)

(** [a < b] and [a > b] on numbers, as booleans. *)
Definition Qltb (a b : Q) : bool := negb (Qle_bool b a).
Definition Qgtb (a b : Q) : bool := Qltb b a.

(** [a === b] on numbers. *)
Definition Qeqb (a b : Q) : bool := Qeq_bool a b.

(** ** Geometry *)

(** [type Point = { x: number; y: number }] *)
Module Point.
Record t : Type := mk { x : Q; y : Q }.
End Point.

(** The fields of a [DOMRect] that the engine reads.  They are independent
    numbers, as in the mocked rectangles of the test helpers. *)
Module DOMRect.
Record t : Type := mk {
  top : Q; bottom : Q; left : Q; right : Q; width : Q; height : Q
}.
End DOMRect.

Definition intrudesDown (dy : Q) (draggingItemRect targetItemRect : DOMRect.t) : bool :=
  if Qgtb (DOMRect.bottom draggingItemRect + dy)
          (DOMRect.top targetItemRect + DOMRect.height draggingItemRect / 2)
  then true else false.

Definition intrudesUp (dy : Q) (draggingItemRect targetItemRect : DOMRect.t) : bool :=
  if Qltb (DOMRect.top draggingItemRect + dy)
          (DOMRect.bottom targetItemRect - DOMRect.height draggingItemRect / 2)
  then true else false.

Definition isBelow (dx dy : Q) (draggingItemRect targetItemRect : DOMRect.t) : bool :=
  if Qgtb (DOMRect.top draggingItemRect + dy) (DOMRect.bottom targetItemRect) then true
  else if Qltb (DOMRect.right draggingItemRect + dx) (DOMRect.left targetItemRect) then true
  else if Qgtb (DOMRect.left draggingItemRect + dx) (DOMRect.right targetItemRect) then true
  else false.

Definition isAbove (dx dy : Q) (draggingItemRect targetItemRect : DOMRect.t) : bool :=
  if Qltb (DOMRect.bottom draggingItemRect + dy) (DOMRect.top targetItemRect) then true
  else if Qltb (DOMRect.right draggingItemRect + dx) (DOMRect.left targetItemRect) then true
  else if Qgtb (DOMRect.left draggingItemRect + dx) (DOMRect.right targetItemRect) then true
  else false.

(** Two rectangles of equal height, [upper] directly above [lower] with no
    gap between them. *)
Definition stacked (upper lower : DOMRect.t) : Prop :=
  (DOMRect.height upper == DOMRect.height lower)%Q /\
  (DOMRect.bottom upper == DOMRect.top lower)%Q.

(** ** Identifiers *)

(** [/^rhah-placeholder-/.test(id)] *)
Definition isPlaceholderId (id : string) : bool :=
  String.prefix "rhah-placeholder-" id.

Definition withoutPlaceholderIds (ids : list string) : list string :=
  List.filter (fun id => negb (isPlaceholderId id)) ids.

(** lodash [without(array, value)]: a new array without the entries equal to
    [value]. *)
Definition without (array : list string) (value : string) : list string :=
  List.filter (fun id => negb (String.eqb id value)) array.

(** [Array.prototype.findIndex]: the index of the first entry that satisfies
    the predicate, [-1] when there is none. *)
Fixpoint findIndex {A : Type} (p : A -> bool) (l : list A) : Z :=
  match l with
  | nil => -1
  | a :: l' =>
      if p a then 0
      else let i := findIndex p l' in if i <? 0 then -1 else i + 1
  end.

(** [array[i] = v] on an array of strings, for the indexes [findIndex] can
    return: an index inside the array replaces that entry; a negative index
    is not an array index, the assignment then creates a property named by
    it and the entries and the length of the array stay as they are.  (An
    index at or beyond the length is never produced by [findIndex]; the
    entries are left unchanged there as well.) *)
Definition array_set (array : list string) (i : Z) (v : string) : list string :=
  if i <? 0 then array else <[Z.to_nat i := v]> array.

(** ** The DOM *)

(** A DOM element is a mutable object: the engine holds references to
    elements and reads and writes them through the DOM store. *)
Definition HTMLElement : Type := nat.

(** The values the engine gives to [style.position], [style.top] and
    [style.left]: the empty string, ["absolute"], or a length [`${n}px`]. *)
Inductive CssValue : Type :=
| css_empty
| css_absolute
| css_px (n : Q).

Module Style.
Record t : Type := mk { position : CssValue; top : CssValue; left : CssValue }.
Definition empty : t := mk css_empty css_empty css_empty.
End Style.

Inductive StyleProp : Type := sp_position | sp_top | sp_left.

Module Element.
Record t : Type := mk {
  (** [dataset.rhahOrderableListId] *)
  rhahOrderableListId : option string;
  (** what [getBoundingClientRect()] returns in the current layout *)
  boundingClientRect : DOMRect.t;
  style : Style.t
}.
(** An element nothing is known about: no data attribute, the all-zero
    rectangle, no inline style. *)
Definition blank : t :=
  mk None (DOMRect.mk 0 0 0 0 0 0) Style.empty.
Definition set_style (p : StyleProp) (v : CssValue) (e : t) : t :=
  let s := style e in
  mk (rhahOrderableListId e) (boundingClientRect e)
     match p with
     | sp_position => Style.mk v (Style.top s) (Style.left s)
     | sp_top => Style.mk (Style.position s) v (Style.left s)
     | sp_left => Style.mk (Style.position s) (Style.top s) v
     end.
End Element.

(** ** The engine *)

Inductive Direction : Type := up | down.

(** Callbacks supplied by the caller are opaque: a call is recorded in the
    trace under the callback's name. *)
Definition Callback : Type := nat.

Inductive EventType : Type := mousemove | mouseup.

(** The two closures [startTracking] creates and registers on [window]. *)
Inductive Listener : Type :=
| MouseMoveHandler (onDragTo : Callback)
| MouseUpHandler.

(** The fields of the class, with their initial values in [DragService_new]. *)
Record DragService : Type := mkDragService {
  downId : option string;
  downAt : option Point.t;
  lastPoint : option Point.t;
  lastDirection : option Direction;
  isDragging : bool;
  draggingId : option string;
  downElement : option HTMLElement;
  downRect : option DOMRect.t;
  itemRectCache : gmap string DOMRect.t;
  (** a JavaScript array, read and written by index only: the properties
      that are set, by index *)
  elements : gmap Z HTMLElement;
  maxElementIndex : Z;
  handleMove : option Listener;
  handleUp : option Listener;
  onDragEnd : Callback;
  orderedElementIds : list string;
  placeholderItemIndex : option Z;
  placeholderElementIndex : option Z
}.

(** The object the hook passes to the constructor.  [DragServiceOptions]
    declares [onDragEnd] only; the hook's object literal carries
    [dragOutIsAllowed] as well. *)
Record DragServiceOptions : Type := mkOptions {
  opt_onDragEnd : Callback;
  opt_dragOutIsAllowed : bool
}.

(** [constructor(ids, { onDragEnd })]: the destructuring reads [onDragEnd]
    and nothing else of the options. *)
Definition DragService_new (ids : list string) (options : DragServiceOptions) : DragService :=
  {| downId := None; downAt := None; lastPoint := None; lastDirection := None;
     isDragging := false; draggingId := None; downElement := None;
     downRect := None; itemRectCache := ∅; elements := ∅;
     maxElementIndex := 0; handleMove := None; handleUp := None;
     onDragEnd := opt_onDragEnd options; orderedElementIds := ids;
     placeholderItemIndex := None; placeholderElementIndex := None |}.

Inductive Field : Type :=
| F_downId | F_downAt | F_lastPoint | F_lastDirection | F_isDragging
| F_draggingId | F_downElement | F_downRect | F_elements
| F_maxElementIndex | F_handleMove | F_handleUp | F_orderedElementIds
| F_placeholderItemIndex | F_placeholderElementIndex.

(** Field updates: [with_f v s] is [s] after [s.f = v]. *)
Definition with_downId (v : option string) (s : DragService) : DragService :=
  mkDragService v (downAt s) (lastPoint s) (lastDirection s) (isDragging s)
    (draggingId s) (downElement s) (downRect s) (itemRectCache s) (elements s)
    (maxElementIndex s) (handleMove s) (handleUp s) (onDragEnd s)
    (orderedElementIds s) (placeholderItemIndex s) (placeholderElementIndex s).
Definition with_downAt (v : option Point.t) (s : DragService) : DragService :=
  mkDragService (downId s) v (lastPoint s) (lastDirection s) (isDragging s)
    (draggingId s) (downElement s) (downRect s) (itemRectCache s) (elements s)
    (maxElementIndex s) (handleMove s) (handleUp s) (onDragEnd s)
    (orderedElementIds s) (placeholderItemIndex s) (placeholderElementIndex s).
Definition with_lastPoint (v : option Point.t) (s : DragService) : DragService :=
  mkDragService (downId s) (downAt s) v (lastDirection s) (isDragging s)
    (draggingId s) (downElement s) (downRect s) (itemRectCache s) (elements s)
    (maxElementIndex s) (handleMove s) (handleUp s) (onDragEnd s)
    (orderedElementIds s) (placeholderItemIndex s) (placeholderElementIndex s).
Definition with_lastDirection (v : option Direction) (s : DragService) : DragService :=
  mkDragService (downId s) (downAt s) (lastPoint s) v (isDragging s)
    (draggingId s) (downElement s) (downRect s) (itemRectCache s) (elements s)
    (maxElementIndex s) (handleMove s) (handleUp s) (onDragEnd s)
    (orderedElementIds s) (placeholderItemIndex s) (placeholderElementIndex s).
Definition with_isDragging (v : bool) (s : DragService) : DragService :=
  mkDragService (downId s) (downAt s) (lastPoint s) (lastDirection s) v
    (draggingId s) (downElement s) (downRect s) (itemRectCache s) (elements s)
    (maxElementIndex s) (handleMove s) (handleUp s) (onDragEnd s)
    (orderedElementIds s) (placeholderItemIndex s) (placeholderElementIndex s).
Definition with_draggingId (v : option string) (s : DragService) : DragService :=
  mkDragService (downId s) (downAt s) (lastPoint s) (lastDirection s)
    (isDragging s) v (downElement s) (downRect s) (itemRectCache s) (elements
    s) (maxElementIndex s) (handleMove s) (handleUp s) (onDragEnd s)
    (orderedElementIds s) (placeholderItemIndex s) (placeholderElementIndex s).
Definition with_downElement (v : option HTMLElement) (s : DragService) : DragService :=
  mkDragService (downId s) (downAt s) (lastPoint s) (lastDirection s)
    (isDragging s) (draggingId s) v (downRect s) (itemRectCache s) (elements
    s) (maxElementIndex s) (handleMove s) (handleUp s) (onDragEnd s)
    (orderedElementIds s) (placeholderItemIndex s) (placeholderElementIndex s).
Definition with_downRect (v : option DOMRect.t) (s : DragService) : DragService :=
  mkDragService (downId s) (downAt s) (lastPoint s) (lastDirection s)
    (isDragging s) (draggingId s) (downElement s) v (itemRectCache s)
    (elements s) (maxElementIndex s) (handleMove s) (handleUp s) (onDragEnd s)
    (orderedElementIds s) (placeholderItemIndex s) (placeholderElementIndex s).
Definition with_elements (v : gmap Z HTMLElement) (s : DragService) : DragService :=
  mkDragService (downId s) (downAt s) (lastPoint s) (lastDirection s)
    (isDragging s) (draggingId s) (downElement s) (downRect s) (itemRectCache
    s) v (maxElementIndex s) (handleMove s) (handleUp s) (onDragEnd s)
    (orderedElementIds s) (placeholderItemIndex s) (placeholderElementIndex s).
Definition with_maxElementIndex (v : Z) (s : DragService) : DragService :=
  mkDragService (downId s) (downAt s) (lastPoint s) (lastDirection s)
    (isDragging s) (draggingId s) (downElement s) (downRect s) (itemRectCache
    s) (elements s) v (handleMove s) (handleUp s) (onDragEnd s)
    (orderedElementIds s) (placeholderItemIndex s) (placeholderElementIndex s).
Definition with_handleMove (v : option Listener) (s : DragService) : DragService :=
  mkDragService (downId s) (downAt s) (lastPoint s) (lastDirection s)
    (isDragging s) (draggingId s) (downElement s) (downRect s) (itemRectCache
    s) (elements s) (maxElementIndex s) v (handleUp s) (onDragEnd s)
    (orderedElementIds s) (placeholderItemIndex s) (placeholderElementIndex s).
Definition with_handleUp (v : option Listener) (s : DragService) : DragService :=
  mkDragService (downId s) (downAt s) (lastPoint s) (lastDirection s)
    (isDragging s) (draggingId s) (downElement s) (downRect s) (itemRectCache
    s) (elements s) (maxElementIndex s) (handleMove s) v (onDragEnd s)
    (orderedElementIds s) (placeholderItemIndex s) (placeholderElementIndex s).
Definition with_orderedElementIds (v : list string) (s : DragService) : DragService :=
  mkDragService (downId s) (downAt s) (lastPoint s) (lastDirection s)
    (isDragging s) (draggingId s) (downElement s) (downRect s) (itemRectCache
    s) (elements s) (maxElementIndex s) (handleMove s) (handleUp s) (onDragEnd
    s) v (placeholderItemIndex s) (placeholderElementIndex s).
Definition with_placeholderItemIndex (v : option Z) (s : DragService) : DragService :=
  mkDragService (downId s) (downAt s) (lastPoint s) (lastDirection s)
    (isDragging s) (draggingId s) (downElement s) (downRect s) (itemRectCache
    s) (elements s) (maxElementIndex s) (handleMove s) (handleUp s) (onDragEnd
    s) (orderedElementIds s) v (placeholderElementIndex s).
Definition with_placeholderElementIndex (v : option Z) (s : DragService) : DragService :=
  mkDragService (downId s) (downAt s) (lastPoint s) (lastDirection s)
    (isDragging s) (draggingId s) (downElement s) (downRect s) (itemRectCache
    s) (elements s) (maxElementIndex s) (handleMove s) (handleUp s) (onDragEnd
    s) (orderedElementIds s) (placeholderItemIndex s) v.

(** ** The world and its effects *)

(** What the engine does to its surroundings, in the order it does it. *)
Inductive Effect : Type :=
| AddEventListener (type : EventType) (listener : Listener)
| RemoveEventListener (type : EventType) (listener : Listener)
| SetStyle (element : HTMLElement) (prop : StyleProp) (value : CssValue)
| Assign (field : Field)
| Call_onDragTo (callback : Callback) (index : Z)
| Call_onDragEnd (callback : Callback) (newOrderedIds : list string).

Record World : Type := mkWorld {
  svc : DragService;
  dom : gmap HTMLElement Element.t;
  (** the listeners registered on [window] *)
  listeners : list (EventType * Listener);
  (** [process.env.NODE_ENV === "test"] *)
  node_env_test : bool;
  trace : list Effect
}.

Inductive Error : Type :=
| IndexBeyondMax (index max : Z)
| NoItemAtIndex (index max : Z)
| HandlersAlreadyExist
| NotInDraggingState (functionName : string)
| HandleMoveMissing
| HandleUpMissing
| DownElementUndefined
| DraggingIdUndefined
| PlaceholderIndexUndefined
| VerySuspicious
| NotAnHTMLTarget
| TypeError (reading : string).

Inductive Outcome (A : Type) : Type :=
| Ret (a : A)
| Throw (e : Error).
Arguments Ret {A} a.
Arguments Throw {A} e.

(** A method of the engine: it runs in a world, returns or throws, and
    leaves a world behind in both cases. *)
Definition M (A : Type) : Type := World -> Outcome A * World.

#[global] Instance M_ret : MRet M := fun A a w => (Ret a, w).
#[global] Instance M_bind : MBind M := fun A B f m w =>
  match m w with
  | (Ret a, w') => f a w'
  | (Throw e, w') => (Throw e, w')
  end.

Definition throw {A : Type} (e : Error) : M A := fun w => (Throw e, w).

Definition this : M DragService := fun w => (Ret (svc w), w).

Definition emit (e : Effect) : M unit := fun w =>
  (Ret tt, mkWorld (svc w) (dom w) (listeners w) (node_env_test w) (trace w ++ [e])).

(** [this.f = v] *)
Definition assign (f : Field) (upd : DragService -> DragService) : M unit := fun w =>
  (Ret tt, mkWorld (upd (svc w)) (dom w) (listeners w) (node_env_test w)
                   (trace w ++ [Assign f])).

#[global] Instance EventType_eq_dec : EqDecision EventType.
Proof. solve_decision. Defined.
#[global] Instance Listener_eq_dec : EqDecision Listener.
Proof. solve_decision. Defined.

Definition element_of (w : World) (el : HTMLElement) : Element.t :=
  default Element.blank (dom w !! el).

Definition getBoundingClientRect (el : HTMLElement) : M DOMRect.t := fun w =>
  (Ret (Element.boundingClientRect (element_of w el)), w).

Definition dataset_rhahOrderableListId (el : HTMLElement) : M (option string) := fun w =>
  (Ret (Element.rhahOrderableListId (element_of w el)), w).

(** [el.style.prop = v] *)
Definition set_style (el : HTMLElement) (p : StyleProp) (v : CssValue) : M unit := fun w =>
  (Ret tt, mkWorld (svc w) (<[el := Element.set_style p v (element_of w el)]> (dom w))
                   (listeners w) (node_env_test w) (trace w ++ [SetStyle el p v])).

(** [window.addEventListener]: a listener already registered for the type is
    not registered twice. *)
Definition window_addEventListener (t : EventType) (l : Listener) : M unit := fun w =>
  (Ret tt, mkWorld (svc w) (dom w)
                   (if bool_decide ((t, l) ∈ listeners w) then listeners w
                    else listeners w ++ [(t, l)])
                   (node_env_test w) (trace w ++ [AddEventListener t l])).

Definition window_removeEventListener (t : EventType) (l : Listener) : M unit := fun w =>
  (Ret tt, mkWorld (svc w) (dom w)
                   (List.filter (fun r => negb (bool_decide (r = (t, l)))) (listeners w))
                   (node_env_test w) (trace w ++ [RemoveEventListener t l])).

Definition process_env_test : M bool := fun w => (Ret (node_env_test w), w).

(** ** Truthiness *)

(** [!!s] for [s : string | undefined]: the empty string is falsy. *)
Definition truthy_string (s : option string) : bool :=
  match s with
  | Some s => negb (String.eqb s "")
  | None => false
  end.

(** [n || d] for [n : number | undefined]: zero is falsy. *)
Definition number_or (n : option Z) (d : Z) : Z :=
  match n with
  | Some n => if n =? 0 then d else n
  | None => d
  end.

(** [!n] for [n : number | undefined]. *)
Definition falsy_number (n : option Z) : bool :=
  match n with
  | Some n => n =? 0
  | None => true
  end.

(** [a !== b] for [a : number | undefined] and a number [b]. *)
Definition number_neq (a : option Z) (b : Z) : bool :=
  match a with
  | Some a => negb (a =? b)
  | None => true
  end.

(** ** Methods of [DragService] *)

(** A pointer event.  [target] is [None] when the event's target is not an
    HTML element; the tracking methods read [clientX] and [clientY] only. *)
Record PointerEvent : Type := mkEvent {
  target : option HTMLElement;
  clientX : Q;
  clientY : Q
}.

(** Modelled from the spec: [assertHTMLTarget] of [~/helpers], which is not
    among the sources.  It narrows the event to one whose target is an HTML
    element and fails otherwise. *)
Definition assertHTMLTarget (event : PointerEvent) : M HTMLElement :=
  match target event with
  | Some el => mret el
  | None => throw NotAnHTMLTarget
  end.

Definition onMouseDown (event : PointerEvent) : M unit :=
  el ← assertHTMLTarget event;
  let p := Point.mk (clientX event) (clientY event) in
  assign F_lastPoint (with_lastPoint (Some p));;
  assign F_downAt (with_downAt (Some p));;
  assign F_lastDirection (with_lastDirection None);;
  assign F_downElement (with_downElement (Some el));;
  id ← dataset_rhahOrderableListId el;
  assign F_downId (with_downId id);;
  rect ← getBoundingClientRect el;
  assign F_downRect (with_downRect (Some rect)).

Definition resetElementList (ids : list string) : M unit :=
  assign F_orderedElementIds (with_orderedElementIds ids);;
  assign F_maxElementIndex (with_maxElementIndex (Z.of_nat (length ids) - 1)).

Definition pushElement (element : HTMLElement) (index : Z) : M unit :=
  s ← this;
  if index >? maxElementIndex s then
    throw (IndexBeyondMax index (maxElementIndex s))
  else
    assign F_elements (with_elements (<[index := element]> (elements s))).

Definition dragDidStartAt (id : string) (x y : Q) : M bool :=
  s ← this;
  match downAt s with
  | Some at_ =>
      if negb (truthy_string (downId s)) then mret false
      else if negb (bool_decide (Some id = downId s)) then mret false
      else if Qeqb x (Point.x at_) && Qeqb y (Point.y at_) then mret false
      else mret true
  | None => mret false
  end.

(** [getRect(element)]; reading an entry of [elements] that was never set
    gives [undefined], and calling a method on it is a [TypeError]. *)
Definition getRect (element : option HTMLElement) : M DOMRect.t :=
  match element with
  | None => throw (TypeError "getBoundingClientRect")
  | Some el =>
      rect ← getBoundingClientRect el;
      test ← process_env_test;
      if Qeqb (DOMRect.bottom rect) 0 && test then throw VerySuspicious
      else mret rect
  end.

(** What [assertDragging] establishes: the fields that are then known to be
    defined. *)
Record DraggingDragService : Type := mkDragging {
  dragging_downAt : Point.t;
  dragging_downElement : HTMLElement;
  dragging_downRect : DOMRect.t;
  dragging_lastPoint : Point.t
}.

Definition assertDragging (functionName : string) : M DraggingDragService :=
  s ← this;
  match downAt s, downElement s, downRect s, isDragging s, lastPoint s with
  | Some at_, Some el, Some rect, true, Some last => mret (mkDragging at_ el rect last)
  | _, _, _, _, _ => throw (NotInDraggingState functionName)
  end.

(** The pair [{ top, left }] of lengths in pixels. *)
Definition getDragElementPosition (event : PointerEvent) : M (CssValue * CssValue) :=
  d ← assertDragging "getDragElementPosition";
  let top := css_px (DOMRect.top (dragging_downRect d) + clientY event
                     - Point.y (dragging_downAt d)) in
  let left := css_px (DOMRect.left (dragging_downRect d) + clientX event
                      - Point.x (dragging_downAt d)) in
  mret (top, left).

Definition startTracking (id : string) (event : PointerEvent) (onDragTo : Callback) : M unit :=
  s ← this;
  if bool_decide (is_Some (handleMove s)) || bool_decide (is_Some (handleUp s)) then
    throw HandlersAlreadyExist
  else
    assign F_isDragging (with_isDragging true);;
    assign F_draggingId (with_draggingId (Some id));;
    _ ← assertDragging "startTracking";
    assign F_handleMove (with_handleMove (Some (MouseMoveHandler onDragTo)));;
    assign F_handleUp (with_handleUp (Some MouseUpHandler));;
    window_addEventListener mousemove (MouseMoveHandler onDragTo);;
    window_addEventListener mouseup MouseUpHandler.

Definition destroy : M unit :=
  s ← this;
  match handleMove s with
  | Some h => window_removeEventListener mousemove h
  | None => mret tt
  end;;
  match handleUp s with
  | Some h => window_removeEventListener mouseup h
  | None => mret tt
  end.

(** [getGap] is called by no method and is left out. *)

(** The order committed by a release outside the ejected state:
    [without], [findIndex], and the assignment at the index found. *)
Definition commitOrder (orderedElementIds : list string) (droppedId : string) : list string :=
  let orderedItemIds := without orderedElementIds droppedId in
  let placeholderItemIndex := findIndex isPlaceholderId orderedItemIds in
  array_set orderedItemIds placeholderItemIndex droppedId.

(** The body of the closure [this.handleUp]. *)
Definition handleUp_body : M unit :=
  s ← this;
  match handleMove s with
  | None => throw HandleMoveMissing
  | Some move =>
  match handleUp s with
  | None => throw HandleUpMissing
  | Some up_ =>
  match downElement s with
  | None => throw DownElementUndefined
  | Some el =>
  if negb (truthy_string (draggingId s)) then throw DraggingIdUndefined
  else
  match draggingId s, placeholderItemIndex s, placeholderElementIndex s with
  | Some droppedId, Some _, Some _ =>
      window_removeEventListener mousemove move;;
      window_removeEventListener mouseup up_;;
      set_style el sp_position css_empty;;
      set_style el sp_top css_empty;;
      set_style el sp_left css_empty;;
      assign F_handleMove (with_handleMove None);;
      assign F_handleUp (with_handleUp None);;
      assign F_downId (with_downId None);;
      assign F_downAt (with_downAt None);;
      assign F_lastPoint (with_lastPoint None);;
      assign F_isDragging (with_isDragging false);;
      assign F_draggingId (with_draggingId None);;
      assign F_downElement (with_downElement None);;
      assign F_downRect (with_downRect None);;
      s' ← this;
      if bool_decide (placeholderItemIndex s' = Some (-2)) then
        emit (Call_onDragEnd (onDragEnd s') (withoutPlaceholderIds (orderedElementIds s')))
      else
        emit (Call_onDragEnd (onDragEnd s') (commitOrder (orderedElementIds s') droppedId))
  | _, _, _ => throw PlaceholderIndexUndefined
  end end end end.

(** *** The move handler *)

(** The element indexes the downward loop visits, in order:
    [for (elementIndex = 0; elementIndex <= maxElementIndex; elementIndex++)].
    Nothing in the loop assigns [maxElementIndex]. *)
Definition indexesDown (service : DragService) : list Z :=
  seqZ 0 (maxElementIndex service + 1).

(** [for (elementIndex = maxElementIndex; elementIndex >= 0; elementIndex--)] *)
Definition indexesUp (service : DragService) : list Z :=
  reverse (seqZ 0 (maxElementIndex service + 1)).

(** The downward loop from the turn for the first of [indexes] on.
    [new] is the pair [(newItemIndex, newElementIndex)]; a [break] returns
    it. *)
Fixpoint walkDown (service : DragService) (dx dy : Q) (downRect : DOMRect.t)
    (indexes : list Z) (itemIndex : Z) (new : Z * Z) : M (Z * Z) :=
  match indexes with
  | [] => mret new
  | elementIndex :: rest =>
      let element := elements service !! elementIndex in
      let itemIndex :=
        if number_neq (placeholderElementIndex service) elementIndex
        then itemIndex + 1 else itemIndex in
      targetRect ← getRect element;
      let mightSwap := intrudesDown dy downRect targetRect in
      if (elementIndex =? maxElementIndex service) && isBelow dx dy downRect targetRect
      then mret (-2, -2)
      else if mightSwap
      then walkDown service dx dy downRect rest itemIndex (itemIndex, itemIndex)
      else mret new
  end.

(** The closure [getItemIndex] of the upward loop. *)
Definition getItemIndex (service : DragService) (elementIndex : Z) : Z :=
  if falsy_number (placeholderElementIndex service) then elementIndex
  else match placeholderElementIndex service with
       | Some p =>
           if p >? elementIndex then elementIndex
           else if p <? 0 then elementIndex
           else elementIndex - 1
       | None => elementIndex
       end.

(** [(elementIndex === 1 &&
      list.elements[0].dataset.rhahOrderableListId === list.draggingId) ||
     elementIndex === 0] *)
Definition isLastPossibleElement (service : DragService) (elementIndex : Z) : M bool :=
  if elementIndex =? 1 then
    match elements service !! 0 with
    | None => throw (TypeError "dataset")
    | Some first =>
        id ← dataset_rhahOrderableListId first;
        mret (bool_decide (id = draggingId service) || (elementIndex =? 0))
    end
  else mret (elementIndex =? 0).

(** The upward loop. *)
Fixpoint walkUp (service : DragService) (dx dy : Q) (downRect : DOMRect.t)
    (indexes : list Z) (new : Z * Z) : M (Z * Z) :=
  match indexes with
  | [] => mret new
  | elementIndex :: rest =>
      let element := elements service !! elementIndex in
      targetRect ← getRect element;
      let mightSwap := intrudesUp dy downRect targetRect in
      last ← isLastPossibleElement service elementIndex;
      if last && isAbove dx dy downRect targetRect
      then mret (-2, -2)
      else if mightSwap
      then let i := getItemIndex service elementIndex in
           walkUp service dx dy downRect rest (i, i)
      else mret new
  end.

(** [dyFromLastPoint > 0 ? "down" : dyFromLastPoint < 0 ? "up"
      : list.lastDirection || "down"] *)
Definition directionOf (dyFromLastPoint : Q) (lastDirection : option Direction) : Direction :=
  if Qgtb dyFromLastPoint 0 then down
  else if Qltb dyFromLastPoint 0 then up
  else default down lastDirection.

(** The function [getMouseMoveHandler(list, onDragTo)] returns. *)
Definition handleMouseMove (onDragTo : Callback) (event : PointerEvent) : M unit :=
  d ← assertDragging "getMouseMoveHandler";
  service ← this;
  let dy := (clientY event - Point.y (dragging_downAt d))%Q in
  let dx := (clientX event - Point.x (dragging_downAt d))%Q in
  let dyFromLastPoint := (clientY event - Point.y (dragging_lastPoint d))%Q in
  let direction := directionOf dyFromLastPoint (lastDirection service) in
  assign F_lastDirection (with_lastDirection (Some direction));;
  assign F_lastPoint (with_lastPoint (Some (Point.mk (clientY event) (clientY event))));;
  position ← getDragElementPosition event;
  service ← this;
  let newElementIndex := number_or (placeholderElementIndex service) (-2) in
  let newItemIndex := number_or (placeholderItemIndex service) (-2) in
  new ← match direction with
        | down => walkDown service dx dy (dragging_downRect d) (indexesDown service) 0
                           (newItemIndex, newElementIndex)
        | up => walkUp service dx dy (dragging_downRect d) (indexesUp service)
                       (newItemIndex, newElementIndex)
        end;
  set_style (dragging_downElement d) sp_position css_absolute;;
  set_style (dragging_downElement d) sp_top (fst position);;
  set_style (dragging_downElement d) sp_left (snd position);;
  service ← this;
  if number_neq (placeholderItemIndex service) (fst new) then
    assign F_placeholderItemIndex (with_placeholderItemIndex (Some (fst new)));;
    assign F_placeholderElementIndex (with_placeholderElementIndex (Some (snd new)));;
    emit (Call_onDragTo onDragTo (fst new))
  else mret tt.

(** [window] delivers an event of a type to the listeners registered for
    it, in the order of registration. *)
Definition run_listener (l : Listener) (event : PointerEvent) : M unit :=
  match l with
  | MouseMoveHandler onDragTo => handleMouseMove onDragTo event
  | MouseUpHandler => handleUp_body
  end.

Fixpoint run_listeners (ls : list (EventType * Listener)) (t : EventType)
    (event : PointerEvent) : M unit :=
  match ls with
  | [] => mret tt
  | (t', l) :: rest =>
      (if bool_decide (t' = t) then run_listener l event else mret tt);;
      run_listeners rest t event
  end.

Definition window_dispatch (t : EventType) (event : PointerEvent) : M unit :=
  fun w => run_listeners (listeners w) t event w.

(** ** The hook [useOrderableList] *)

(** An entry of the displayed list: an item of the caller or the
    placeholder. *)
Inductive Entry : Type :=
| Item (id : string)
| Placeholder (id : string).

Definition entry_id (e : Entry) : string :=
  match e with Item id => id | Placeholder id => id end.

Definition isPlaceholder (e : Entry) : bool :=
  match e with Placeholder _ => true | Item _ => false end.

(** [type UseOrderableListOptions] *)
Record UseOrderableListOptions : Type := mkHookOptions {
  onOrderChange : option Callback;
  dragOutIsAllowed : option bool
}.

(** The options object the hook builds for [new DragService]:
    [{ onDragEnd: ..., dragOutIsAllowed }] with [dragOutIsAllowed = true] as
    the default of the destructuring.  [hookOnDragEnd] names the closure the
    hook passes as [onDragEnd]. *)
Definition hookOnDragEnd : Callback := 0%nat.
Definition hookOnDragTo : Callback := 1%nat.

Definition serviceOptions (options : UseOrderableListOptions) : DragServiceOptions :=
  mkOptions hookOnDragEnd (default true (dragOutIsAllowed options)).

(** [useState(() => new DragService(orderedIds, { ... }))] with
    [orderedIds = items.map(({ id }) => id)]. *)
Definition newService (items : list string) (options : UseOrderableListOptions) : DragService :=
  DragService_new items (serviceOptions options).

(** [insertPlaceholders]: [short] is the token [short.generate()] returns. *)
Definition insertPlaceholders (items : list string) (placeholderIndex : Z)
    (downRect : option DOMRect.t) (short : string) : list Entry :=
  if (placeholderIndex <? 0) || negb (bool_decide (is_Some downRect))
  then map Item items
  else
    let before := take (Z.to_nat placeholderIndex) items in
    let after := drop (Z.to_nat placeholderIndex) items in
    map Item before ++ [Placeholder ("rhah-placeholder-" ++ short)%string] ++ map Item after.

(** [getItemProps(elementIndex)], as far as a render goes: the guard on the
    entry at the index.  The properties it returns carry the callback ref
    that registers the element of the entry once it is mounted. *)
Definition getItemProps (itemsAndPlaceholders : list Entry) (elementIndex : Z) : M Entry :=
  let item :=
    if elementIndex <? 0 then None else itemsAndPlaceholders !! Z.to_nat elementIndex in
  match item with
  | Some item => mret item
  | None =>
      let maxIndex := Z.of_nat (length itemsAndPlaceholders) - 1 in
      throw (NoItemAtIndex elementIndex maxIndex)
  end.

(** The caller asks for the properties of what it displays while it
    renders, one element index after the other. *)
Fixpoint getItemPropsFrom (itemsAndPlaceholders : list Entry) (mounted : list HTMLElement)
    (elementIndex : Z) : M unit :=
  match mounted with
  | [] => mret tt
  | _ :: rest =>
      getItemProps itemsAndPlaceholders elementIndex;;
      getItemPropsFrom itemsAndPlaceholders rest (elementIndex + 1)
  end.

(** The callback refs of a render that has completed: each registers the
    element mounted for its index. *)
Fixpoint pushElements (mounted : list HTMLElement) (elementIndex : Z) : M unit :=
  match mounted with
  | [] => mret tt
  | el :: rest => pushElement el elementIndex;; pushElements rest (elementIndex + 1)
  end.

(** One render of the hook: the displayed entries are computed and the
    engine is told their identifiers; the caller asks for the properties of
    each element it displays; when that has completed the elements are
    mounted and the callback refs register them.  [mounted] lists those
    elements in the order of their indexes. *)
Definition render (items : list string) (placeholderIndex : Z) (short : string)
    (mounted : list HTMLElement) : M (list Entry) :=
  s ← this;
  let itemsAndPlaceholders := insertPlaceholders items placeholderIndex (downRect s) short in
  resetElementList (map entry_id itemsAndPlaceholders);;
  getItemPropsFrom itemsAndPlaceholders mounted 0;;
  pushElements mounted 0;;
  mret itemsAndPlaceholders.

(** ** Reading the trace *)

(** The indexes reported through [onDragTo], in order. *)
Definition dragTo_calls (tr : list Effect) : list Z :=
  omap (fun e => match e with Call_onDragTo _ i => Some i | _ => None end) tr.

(** The orders handed to [onDragEnd], in order. *)
Definition dragEnd_calls (tr : list Effect) : list (list string) :=
  omap (fun e => match e with Call_onDragEnd _ ids => Some ids | _ => None end) tr.

(** The index the last call of [onDragTo] reported. *)
Definition reported_index (w : World) : option Z := last (dragTo_calls (trace w)).

(** The order the last call of [onDragEnd] was given. *)
Definition committed (w : World) : option (list string) := last (dragEnd_calls (trace w)).

(** ** Vocabulary of the statements *)

(** A press is active: the down identifier and the down point are set. *)
Definition press_active (s : DragService) : Prop :=
  is_Some (downId s) /\ is_Some (downAt s).

(** The engine is in the dragging state: what [assertDragging] asks for. *)
Definition dragging_at (s : DragService) (at_ last : Point.t)
    (el : HTMLElement) (rect : DOMRect.t) : Prop :=
  downAt s = Some at_ /\ downElement s = Some el /\ downRect s = Some rect /\
  isDragging s = true /\ lastPoint s = Some last.

(** The preconditions the release handler checks. *)
Definition release_ready (s : DragService) : Prop :=
  is_Some (handleMove s) /\ is_Some (handleUp s) /\ is_Some (downElement s) /\
  truthy_string (draggingId s) = true /\
  is_Some (placeholderItemIndex s) /\ is_Some (placeholderElementIndex s).

(** The order a release hands to [onDragEnd]. *)
Definition committedOrder (s : DragService) (droppedId : string) : list string :=
  if bool_decide (placeholderItemIndex s = Some (-2))
  then withoutPlaceholderIds (orderedElementIds s)
  else commitOrder (orderedElementIds s) droppedId.

(** The effects of a release, in order. *)
Definition release_effects (s : DragService) (move up_ : Listener)
    (el : HTMLElement) (droppedId : string) : list Effect :=
  [ RemoveEventListener mousemove move; RemoveEventListener mouseup up_;
    SetStyle el sp_position css_empty; SetStyle el sp_top css_empty;
    SetStyle el sp_left css_empty;
    Assign F_handleMove; Assign F_handleUp; Assign F_downId; Assign F_downAt;
    Assign F_lastPoint; Assign F_isDragging; Assign F_draggingId;
    Assign F_downElement; Assign F_downRect;
    Call_onDragEnd (onDragEnd s) (committedOrder s droppedId) ].

(** Every field that a press, the start of tracking or a move assigns has
    the value it had when the engine was constructed. *)
Definition tracking_baseline (s : DragService) : Prop :=
  handleMove s = None /\ handleUp s = None /\
  downId s = None /\ downAt s = None /\ downElement s = None /\ downRect s = None /\
  lastPoint s = None /\ lastDirection s = None /\
  isDragging s = false /\ draggingId s = None /\
  placeholderItemIndex s = None /\ placeholderElementIndex s = None.

(** The world once the move handler has recorded the direction and the
    point. *)
Definition recorded (direction : Direction) (event : PointerEvent) (w : World) : World :=
  mkWorld (with_lastPoint (Some (Point.mk (clientY event) (clientY event)))
             (with_lastDirection (Some direction) (svc w)))
          (dom w) (listeners w) (node_env_test w)
          ((trace w ++ [Assign F_lastDirection]) ++ [Assign F_lastPoint]).

(** The loop the move handler runs, as it appears in [handleMouseMove]. *)
Definition walk (direction : Direction) (event : PointerEvent) (w : World)
    (at_ : Point.t) (rect : DOMRect.t) : M (Z * Z) :=
  let w2 := recorded direction event w in
  let dy := (clientY event - Point.y at_)%Q in
  let dx := (clientX event - Point.x at_)%Q in
  let new := (number_or (placeholderItemIndex (svc w2)) (-2),
              number_or (placeholderElementIndex (svc w2)) (-2)) in
  match direction with
  | down => walkDown (svc w2) dx dy rect (indexesDown (svc w2)) 0 new
  | up => walkUp (svc w2) dx dy rect (indexesUp (svc w2)) new
  end.

(** [getRect] does not find the rectangle of [el] suspicious. *)
Definition rect_accepted (w : World) (el : HTMLElement) : Prop :=
  Qeqb (DOMRect.bottom (Element.boundingClientRect (element_of w el))) 0
  && node_env_test w = false.


(** Three rectangles of one column: equal heights, no gaps, the same left
    and right edges, each as high as its [height] says, below the top of
    the viewport. *)
Definition column (rA rB rC : DOMRect.t) : Prop :=
  stacked rA rB /\ stacked rB rC /\
  (0 < DOMRect.height rA)%Q /\ (0 <= DOMRect.top rA)%Q /\
  (DOMRect.bottom rA == DOMRect.top rA + DOMRect.height rA)%Q /\
  (DOMRect.bottom rB == DOMRect.top rB + DOMRect.height rB)%Q /\
  (DOMRect.bottom rC == DOMRect.top rC + DOMRect.height rC)%Q /\
  (DOMRect.left rC == DOMRect.left rA)%Q /\
  (DOMRect.right rC == DOMRect.right rA)%Q /\
  (DOMRect.left rA <= DOMRect.right rA)%Q.

(** ** The wording of the specification *)

(** C1 as the specification words it: a release in the ejected state
    commits the sequence without its placeholder, the dragged identifier is
    not in the committed order, and this happens only when ejection-drop is
    permitted. *)
Definition ejected_release_drops (options : UseOrderableListOptions) (w : World) : Prop :=
  release_ready (svc w) -> placeholderItemIndex (svc w) = Some (-2) ->
  exists w' droppedId,
    draggingId (svc w) = Some droppedId /\
    handleUp_body w = (Ret tt, w') /\
    dragEnd_calls (trace w')
    = dragEnd_calls (trace w) ++ [withoutPlaceholderIds (orderedElementIds (svc w))] /\
    (droppedId ∉ withoutPlaceholderIds (orderedElementIds (svc w))) /\
    default true (dragOutIsAllowed options) = true.


(** C6 as the specification words it: a release with its preconditions met
    leaves all of the down, dragging and tracking state at the baseline. *)
Definition release_resets_everything (w : World) : Prop :=
  release_ready (svc w) ->
  exists w', handleUp_body w = (Ret tt, w') /\ tracking_baseline (svc w').

(** C7 as the specification words it: the answer is [false] exactly when no
    press is active, the identifier is not the pressed one, or the point is
    the down point; and the world is left as it was. *)
Definition dragDidStartAt_as_specified (id : string) (x y : Q) (w : World) : Prop :=
  exists b,
    dragDidStartAt id x y w = (Ret b, w) /\
    (b = false <->
     ~ press_active (svc w) \/ downId (svc w) <> Some id \/
     exists p, downAt (svc w) = Some p /\ (x == Point.x p)%Q /\ (y == Point.y p)%Q).

(** ** Scenarios *)

(** Rectangles of height 20, one below the other from [t] on. *)
Definition rowAt (t : Q) : DOMRect.t := DOMRect.mk t (t + 20) 0 100 100 20.

(** Three rows [A], [B], [C] of equal height, stacked without a gap, as DOM
    elements 1, 2 and 3. *)
Definition row (id : string) (t : Q) : Element.t :=
  Element.mk (Some id) (rowAt t) Style.empty.

Definition dom_ABC : gmap HTMLElement Element.t :=
  <[1%nat := row "A" 0]> (<[2%nat := row "B" 20]> (<[3%nat := row "C" 40]> ∅)).

(** The world at the first render of the hook over the items [A], [B], [C]. *)
Definition world_ABC (options : UseOrderableListOptions) : World :=
  mkWorld (newService ["A"; "B"; "C"] options) dom_ABC [] true [].

Definition default_options : UseOrderableListOptions := mkHookOptions None None.
Definition forbidden_options : UseOrderableListOptions := mkHookOptions None (Some false).

Definition pointer (x y : Q) : PointerEvent := mkEvent None x y.
Definition pointer_on (el : HTMLElement) (x y : Q) : PointerEvent := mkEvent (Some el) x y.

(** The rendering layer mounts or lays out an element: its identifier and
    its rectangle are what the layout makes them, its inline style stays. *)
Definition place (el : HTMLElement) (id : string) (rect : DOMRect.t) : M unit := fun w =>
  (Ret tt, mkWorld (svc w)
             (<[el := Element.mk (Some id) rect (Element.style (element_of w el))]> (dom w))
             (listeners w) (node_env_test w) (trace w)).

(** The first render, then a press on [A] at (5, 5). *)
Definition press_A : M unit :=
  render ["A"; "B"; "C"] (-1) "0" [1%nat; 2%nat; 3%nat];;
  onMouseDown (pointer_on 1%nat 5 5).

(** [A] is pressed, the drag starts, and one move takes the pointer to
    height [y]. *)
Definition drag_A_to (y : Q) : M unit :=
  press_A;;
  startTracking "A" (pointer 5 6) hookOnDragTo;;
  window_dispatch mousemove (pointer 5 y).

(** [A] is dragged down by 12, past the threshold of [B] and not past that
    of [C]; the hook renders again with the index it was told, and the
    placeholder is mounted as element 4. *)
Definition drag_A_past_B : M (list Entry) :=
  drag_A_to 17;;
  place 4%nat "rhah-placeholder-1" (rowAt 20);;
  render ["A"; "B"; "C"] 2 "1" [1%nat; 2%nat; 4%nat; 3%nat].

(** The first of two moves of [A], by 1, and the render after it: the
    placeholder is mounted as element 4 in the first row and [A] is where
    it was dragged to. *)
Definition drag_A_by_1 : M (list Entry) :=
  drag_A_to 6;;
  place 4%nat "rhah-placeholder-1" (rowAt 0);;
  place 1%nat "A" (rowAt 1);;
  render ["A"; "B"; "C"] 1 "1" [1%nat; 4%nat; 2%nat; 3%nat].

(** The second move, by 12 from the press, and the render after it. *)
Definition drag_A_slowly_past_B : M (list Entry) :=
  drag_A_by_1;;
  window_dispatch mousemove (pointer 5 17);;
  place 1%nat "A" (rowAt 12);;
  place 4%nat "rhah-placeholder-2" (rowAt 20);;
  render ["A"; "B"; "C"] 2 "2" [1%nat; 2%nat; 4%nat; 3%nat].

(** [A] is dragged below the list; the hook renders again with the index it
    was told, [-2]. *)
Definition eject_A : M (list Entry) :=
  drag_A_to 100;;
  render ["A"; "B"; "C"] (-2) "1" [1%nat; 2%nat; 3%nat].

(** [A] is dragged past [B] and released; the caller applies the committed
    order [B, A, C] and the rows are laid out again.  Then the same drag is
    made with [B], now the first row, and released. *)
Definition second_drag : M unit :=
  drag_A_past_B;;
  window_dispatch mouseup (pointer 5 17);;
  place 2%nat "B" (rowAt 0);;
  place 1%nat "A" (rowAt 20);;
  render ["B"; "A"; "C"] (-1) "2" [2%nat; 1%nat; 3%nat];;
  onMouseDown (pointer_on 2%nat 5 5);;
  startTracking "B" (pointer 5 6) hookOnDragTo;;
  window_dispatch mousemove (pointer 5 17);;
  window_dispatch mouseup (pointer 5 17).

(** The first render, then a press on [B] at (5, 25). *)
Definition press_B : M unit :=
  render ["A"; "B"; "C"] (-1) "0" [1%nat; 2%nat; 3%nat];;
  onMouseDown (pointer_on 2%nat 5 25).

(** [B] is dragged up by 35, past [A]: the engine reports index 0.  The
    hook renders again with the placeholder first; the placeholder is
    mounted as element 4 in the first row, [A] moves to the second row and
    [B] is where it was dragged to. *)
Definition drag_B_to_top : M (list Entry) :=
  press_B;;
  startTracking "B" (pointer 5 24) hookOnDragTo;;
  window_dispatch mousemove (pointer 5 (-10));;
  place 4%nat "rhah-placeholder-1" (rowAt 0);;
  place 1%nat "A" (rowAt 20);;
  place 2%nat "B" (rowAt (-15));;
  render ["A"; "B"; "C"] 0 "1" [4%nat; 1%nat; 2%nat; 3%nat].

(** A list with one item whose identifier is the empty string, pressed. *)
Definition world_blank_id : World :=
  mkWorld (newService [""] default_options)
          {[ 1%nat := row "" 0 ]} [] true [].

Definition press_blank_id : M unit :=
  render [""] (-1) "0" [1%nat];;
  onMouseDown (pointer_on 1%nat 5 5).

(** The worlds the scenarios end in, written out. *)
Definition world_pressed_A : World :=
  Eval vm_compute in snd (press_A (world_ABC default_options)).

Definition world_tracking_A : World :=
  Eval vm_compute in
    snd ((press_A;; startTracking "A" (pointer 5 6) hookOnDragTo)
           (world_ABC default_options)).

Definition world_A_past_B : World :=
  Eval vm_compute in snd (drag_A_past_B (world_ABC default_options)).

Definition world_A_moved_by_1 : World :=
  Eval vm_compute in snd (drag_A_by_1 (world_ABC default_options)).

Definition world_A_slowly_past_B : World :=
  Eval vm_compute in snd (drag_A_slowly_past_B (world_ABC default_options)).

Definition world_A_ejected_forbidden : World :=
  Eval vm_compute in snd (eject_A (world_ABC forbidden_options)).

Definition world_A_ejected_permitted : World :=
  Eval vm_compute in snd (eject_A (world_ABC default_options)).

Definition world_after_second_drag : World :=
  Eval vm_compute in snd (second_drag (world_ABC default_options)).

Definition world_B_at_top : World :=
  Eval vm_compute in snd (drag_B_to_top (world_ABC default_options)).

Definition world_pressed_blank_id : World :=
  Eval vm_compute in snd (press_blank_id world_blank_id).

(** ** Proof automation *)

(** The preconditions of a release, on a world that is written out. *)
Ltac ready := vm_compute; repeat split; try (eexists; reflexivity).

(** [lra] with [_ / 2] read as a multiplication by one half. *)
Ltac lra_half :=
  unfold Qdiv in *; change (/ 2)%Q with (1 # 2)%Q in *; lra.

(** Closed goals about worlds that are written out. *)
Ltac by_computation :=
  first [ reflexivity
        | vm_compute; reflexivity
        | vm_compute; discriminate
        | vm_compute; repeat split; first [reflexivity | discriminate] ].

(** ** More of the engine *)



(** ** More vocabulary *)

(** The element indexes among [indexes] that are not the placeholder's. *)
Definition real_indexes (s : DragService) (indexes : list Z) : list Z :=
  List.filter (fun elementIndex => number_neq (placeholderElementIndex s) elementIndex)
              indexes.

(** The downward loop goes on after the turn for [elementIndex]: an element
    is registered there, [getRect] accepts its rectangle, the dragged
    rectangle intrudes on it and has not left the list below it. *)
Definition passes_down (s : DragService) (w : World) (dx dy : Q) (downRect : DOMRect.t)
    (elementIndex : Z) : Prop :=
  exists el,
    elements s !! elementIndex = Some el /\ rect_accepted w el /\
    (elementIndex =? maxElementIndex s)
    && isBelow dx dy downRect (Element.boundingClientRect (element_of w el)) = false /\
    intrudesDown dy downRect (Element.boundingClientRect (element_of w el)) = true.

(** The downward loop breaks in the turn for [elementIndex] because the
    dragged rectangle does not intrude on the element there. *)
Definition stops_down (s : DragService) (w : World) (dx dy : Q) (downRect : DOMRect.t)
    (elementIndex : Z) : Prop :=
  exists el,
    elements s !! elementIndex = Some el /\ rect_accepted w el /\
    (elementIndex =? maxElementIndex s)
    && isBelow dx dy downRect (Element.boundingClientRect (element_of w el)) = false /\
    intrudesDown dy downRect (Element.boundingClientRect (element_of w el)) = false.

(** The downward loop breaks in the turn for the last element because the
    dragged rectangle has left the list. *)
Definition ejects_down (s : DragService) (w : World) (dx dy : Q) (downRect : DOMRect.t)
    (elementIndex : Z) : Prop :=
  exists el,
    elements s !! elementIndex = Some el /\ rect_accepted w el /\
    elementIndex = maxElementIndex s /\
    isBelow dx dy downRect (Element.boundingClientRect (element_of w el)) = true.

(** The same for the upward loop.  In the turn for index 1 the loop reads
    the element at index 0. *)
Definition last_possible (s : DragService) (w : World) (elementIndex : Z) : bool :=
  ((elementIndex =? 1)
   && match elements s !! 0 with
      | Some first =>
          bool_decide (Element.rhahOrderableListId (element_of w first) = draggingId s)
      | None => false
      end)
  || (elementIndex =? 0).

Definition readable_up (s : DragService) (elementIndex : Z) : Prop :=
  elementIndex = 1 -> is_Some (elements s !! 0).

Definition passes_up (s : DragService) (w : World) (dx dy : Q) (downRect : DOMRect.t)
    (elementIndex : Z) : Prop :=
  exists el,
    elements s !! elementIndex = Some el /\ rect_accepted w el /\
    readable_up s elementIndex /\
    last_possible s w elementIndex
    && isAbove dx dy downRect (Element.boundingClientRect (element_of w el)) = false /\
    intrudesUp dy downRect (Element.boundingClientRect (element_of w el)) = true.

Definition stops_up (s : DragService) (w : World) (dx dy : Q) (downRect : DOMRect.t)
    (elementIndex : Z) : Prop :=
  exists el,
    elements s !! elementIndex = Some el /\ rect_accepted w el /\
    readable_up s elementIndex /\
    last_possible s w elementIndex
    && isAbove dx dy downRect (Element.boundingClientRect (element_of w el)) = false /\
    intrudesUp dy downRect (Element.boundingClientRect (element_of w el)) = false.

(** ** More scenarios *)

(** The hook renders [A], [B], [C] but only the elements of [A] and [B]
    are registered; [A] is pressed and tracking starts. *)
Definition track_A_with_C_unregistered : M unit :=
  resetElementList ["A"; "B"; "C"];;
  pushElements [1%nat; 2%nat] 0;;
  onMouseDown (pointer_on 1%nat 5 5);;
  startTracking "A" (pointer 5 6) hookOnDragTo.

Definition world_C_unregistered : World :=
  Eval vm_compute in snd (track_A_with_C_unregistered (world_ABC default_options)).

(** The number of element indexes below [k] that are not the
    placeholder's: the item index of the element at index [k]. *)
Definition items_before (s : DragService) (k : Z) : Z :=
  Z.of_nat (length (real_indexes s (seqZ 0 k))).

(** The upward loop breaks in the turn for [elementIndex] because the
    dragged rectangle has left the list above its last possible element. *)
Definition ejects_up (s : DragService) (w : World) (dx dy : Q) (downRect : DOMRect.t)
    (elementIndex : Z) : Prop :=
  exists el,
    elements s !! elementIndex = Some el /\ rect_accepted w el /\
    readable_up s elementIndex /\
    last_possible s w elementIndex = true /\
    isAbove dx dy downRect (Element.boundingClientRect (element_of w el)) = true.

(** The second drag of [second_drag], up to its last move. *)
Definition second_drag_before_release : M unit :=
  drag_A_past_B;;
  window_dispatch mouseup (pointer 5 17);;
  place 2%nat "B" (rowAt 0);;
  place 1%nat "A" (rowAt 20);;
  render ["B"; "A"; "C"] (-1) "2" [2%nat; 1%nat; 3%nat];;
  onMouseDown (pointer_on 2%nat 5 5);;
  startTracking "B" (pointer 5 6) hookOnDragTo;;
  window_dispatch mousemove (pointer 5 17).

Definition world_before_second_release : World :=
  Eval vm_compute in snd (second_drag_before_release (world_ABC default_options)).

(** ** More proof automation *)

(** Cases on the comparisons of integers in the goal, then [lia]. *)
Ltac case_comparisons :=
  repeat match goal with
    | |- context [?a <=? ?b] => destruct (Z.leb_spec a b)
    | |- context [?a <? ?b] => destruct (Z.ltb_spec a b)
    end;
  cbn; lia.

(** The error of a failed release, among hypotheses about what is set. *)
Ltac which_error :=
  first [ reflexivity
        | discriminate
        | match goal with
          | H : is_Some None |- _ => destruct H; discriminate
          end ].

(** ** A drag with the hook in the loop *)













(** ** The scenario of a slow drag *)




(** [A] is dragged past [B] and released; the caller keeps its items as
    they were and the hook renders them without a placeholder.  Then the
    same drag of [A] is made again on the same engine, and released. *)
Definition drag_A_past_B_twice : M unit :=
  drag_A_past_B;;
  window_dispatch mouseup (pointer 5 17);;
  render ["A"; "B"; "C"] (-1) "2" [1%nat; 2%nat; 3%nat];;
  onMouseDown (pointer_on 1%nat 5 5);;
  startTracking "A" (pointer 5 6) hookOnDragTo;;
  window_dispatch mousemove (pointer 5 17);;
  window_dispatch mouseup (pointer 5 17).

Definition world_A_past_B_twice : World :=
  Eval vm_compute in snd (drag_A_past_B_twice (world_ABC default_options)).

(** ** Proof automation for the registry *)


(** * Properties *)

(** ** The scenarios *)

(** The worlds written out above are the worlds the scenarios end in. *)
Lemma scenario_worlds :
  world_pressed_A = snd (press_A (world_ABC default_options)) /\
  world_tracking_A
  = snd ((press_A;; startTracking "A" (pointer 5 6) hookOnDragTo)
           (world_ABC default_options)) /\
  world_A_past_B = snd (drag_A_past_B (world_ABC default_options)) /\
  world_A_moved_by_1 = snd (drag_A_by_1 (world_ABC default_options)) /\
  world_A_slowly_past_B = snd (drag_A_slowly_past_B (world_ABC default_options)) /\
  world_A_ejected_forbidden = snd (eject_A (world_ABC forbidden_options)) /\
  world_A_ejected_permitted = snd (eject_A (world_ABC default_options)) /\
  world_after_second_drag = snd (second_drag (world_ABC default_options)) /\
  world_B_at_top = snd (drag_B_to_top (world_ABC default_options)) /\
  world_pressed_blank_id = snd (press_blank_id world_blank_id).
Proof. repeat split; vm_compute; reflexivity. Qed.

(** ** Comparisons of numbers *)

Lemma Qltb_lt (a b : Q) : Qltb a b = true <-> (a < b)%Q.
Proof.
  unfold Qltb. rewrite negb_true_iff.
  destruct (Qle_bool b a) eqn:E.
  - apply Qle_bool_iff in E. split; [discriminate | intro H; lra].
  - split; [intros _ | reflexivity].
    destruct (Qlt_le_dec a b) as [H | H]; [exact H |].
    apply Qle_bool_iff in H. congruence.
Qed.

Lemma Qgtb_gt (a b : Q) : Qgtb a b = true <-> (b < a)%Q.
Proof. unfold Qgtb. apply Qltb_lt. Qed.

Lemma Qltb_ge (a b : Q) : Qltb a b = false <-> (b <= a)%Q.
Proof.
  split; intro H.
  - destruct (Qlt_le_dec a b) as [L | L]; [| exact L].
    apply Qltb_lt in L. congruence.
  - destruct (Qltb a b) eqn:E; [| reflexivity].
    apply Qltb_lt in E. lra.
Qed.

Lemma Qgtb_le (a b : Q) : Qgtb a b = false <-> (a <= b)%Q.
Proof. unfold Qgtb. apply Qltb_ge. Qed.

Lemma Qeqb_eq (a b : Q) : Qeqb a b = true <-> (a == b)%Q.
Proof. unfold Qeqb. apply Qeq_bool_iff. Qed.

(** ** Intrusion predicates *)

Lemma intrudesDown_spec (dy : Q) (dragged target : DOMRect.t) :
  intrudesDown dy dragged target = true <->
  (DOMRect.top target + DOMRect.height dragged / 2 < DOMRect.bottom dragged + dy)%Q.
Proof.
  unfold intrudesDown.
  destruct (Qgtb _ _) eqn:E.
  - apply Qgtb_gt in E. tauto.
  - apply Qgtb_le in E. split; [discriminate | intro H; lra].
Qed.

Lemma intrudesUp_spec (dy : Q) (dragged target : DOMRect.t) :
  intrudesUp dy dragged target = true <->
  (DOMRect.top dragged + dy < DOMRect.bottom target - DOMRect.height dragged / 2)%Q.
Proof.
  unfold intrudesUp.
  destruct (Qltb _ _) eqn:E.
  - apply Qltb_lt in E. tauto.
  - apply Qltb_ge in E. split; [discriminate | intro H; lra].
Qed.

(** C4.  The downward predicate is exactly the strict inequality
    [bottom + dy > target.top + height/2] and the upward one exactly
    [top + dy < target.bottom - height/2].  Hence, for two rectangles of
    equal height stacked without a gap, moving the upper one down by exactly
    half its height does not intrude on the lower one, and moving the lower
    one up by exactly half its height does not intrude on the upper one. *)
Theorem intrusion_is_strict (dy : Q) (dragged target : DOMRect.t) :
  (intrudesDown dy dragged target = true <->
   (DOMRect.bottom dragged + dy > DOMRect.top target + DOMRect.height dragged / 2)%Q) /\
  (intrudesUp dy dragged target = true <->
   (DOMRect.top dragged + dy < DOMRect.bottom target - DOMRect.height dragged / 2)%Q) /\
  (stacked dragged target -> (dy == DOMRect.height dragged / 2)%Q ->
   intrudesDown dy dragged target = false) /\
  (stacked target dragged -> (dy == - (DOMRect.height dragged / 2))%Q ->
   intrudesUp dy dragged target = false).
Proof.
  split; [apply intrudesDown_spec |].
  split; [apply intrudesUp_spec |].
  split.
  - intros [_ Hgap] Hdy.
    destruct (intrudesDown dy dragged target) eqn:E; [| reflexivity].
    apply intrudesDown_spec in E. lra.
  - intros [_ Hgap] Hdy.
    destruct (intrudesUp dy dragged target) eqn:E; [| reflexivity].
    apply intrudesUp_spec in E. lra.
Qed.

Lemma intrusion_is_strict_witness :
  stacked (rowAt 0) (rowAt 20) /\
  intrudesDown 10 (rowAt 0) (rowAt 20) = false /\
  intrudesUp (-10) (rowAt 20) (rowAt 0) = false.
Proof.
  assert (S : stacked (rowAt 0) (rowAt 20)) by (split; reflexivity).
  split; [exact S |]. split.
  - apply (intrusion_is_strict 10 (rowAt 0) (rowAt 20)); [exact S | reflexivity].
  - apply (intrusion_is_strict (-10) (rowAt 20) (rowAt 0)); [exact S | reflexivity].
Defined.

(** ** Registration of elements *)

(** C8.  An index above [maxElementIndex] makes [pushElement] throw the
    indexing error and leaves the whole world, the registry included, as it
    was; any other index is stored in the registry without an error, and
    nothing else of the engine changes. *)
Theorem pushElement_bounds (element : HTMLElement) (index : Z) (w : World) :
  (index > maxElementIndex (svc w) ->
   pushElement element index w
   = (Throw (IndexBeyondMax index (maxElementIndex (svc w))), w)) /\
  (index <= maxElementIndex (svc w) ->
   exists w',
     pushElement element index w = (Ret tt, w') /\
     elements (svc w') !! index = Some element /\
     (forall j, j <> index -> elements (svc w') !! j = elements (svc w) !! j) /\
     svc w' = with_elements (<[index := element]> (elements (svc w))) (svc w) /\
     dom w' = dom w /\ listeners w' = listeners w).
Proof.
  unfold pushElement, mbind, M_bind, this. split; intro H.
  - replace (index >? maxElementIndex (svc w)) with true by (symmetry; apply Z.gtb_lt; lia).
    reflexivity.
  - replace (index >? maxElementIndex (svc w)) with false
      by (symmetry; rewrite Z.gtb_ltb; apply Z.ltb_ge; lia).
    eexists. split; [reflexivity |]. cbn.
    split; [apply lookup_insert_eq |].
    split; [intros j Hj; apply lookup_insert_ne; congruence |].
    repeat split.
Qed.

Lemma pushElement_bounds_witness :
  pushElement 4%nat 3 world_pressed_A
  = (Throw (IndexBeyondMax 3 2), world_pressed_A) /\
  (exists w', pushElement 4%nat 2 world_pressed_A = (Ret tt, w') /\
              elements (svc w') !! 2 = Some 4%nat).
Proof.
  split.
  - apply (pushElement_bounds 4%nat 3 world_pressed_A). vm_compute. reflexivity.
  - destruct (pushElement_bounds 4%nat 2 world_pressed_A) as [_ H].
    destruct H as (w' & E & L & _); [vm_compute; discriminate |].
    exists w'. split; assumption.
Defined.

(** ** Start of a drag *)

(** C7, as the code has it.  [dragDidStartAt] returns and leaves the world
    as it was.  Its answer is [true] exactly when the down identifier is set
    and is not the empty string, the down point is set, the identifier is
    the down identifier, and the point differs from the down point in a
    coordinate; in every other case it is [false]. *)
Theorem dragDidStartAt_answer (id : string) (x y : Q) (w : World) :
  exists b,
    dragDidStartAt id x y w = (Ret b, w) /\
    (b = true <->
     truthy_string (downId (svc w)) = true /\
     downId (svc w) = Some id /\
     exists p, downAt (svc w) = Some p /\
               ~ ((x == Point.x p)%Q /\ (y == Point.y p)%Q)).
Proof.
  unfold dragDidStartAt, mbind, M_bind, this.
  destruct (downAt (svc w)) as [p |] eqn:Hat.
  2:{ exists false. split; [reflexivity |].
      split; [discriminate | intros (_ & _ & p & Hp & _); discriminate]. }
  destruct (truthy_string (downId (svc w))) eqn:Ht; cbn.
  2:{ exists false. split; [reflexivity |].
      split; [discriminate | intros (H & _); discriminate]. }
  destruct (bool_decide (Some id = downId (svc w))) eqn:Hid; cbn.
  2:{ exists false. split; [reflexivity |].
      apply bool_decide_eq_false in Hid.
      split; [discriminate | intros (_ & H & _); congruence]. }
  apply bool_decide_eq_true in Hid.
  destruct (Qeqb x (Point.x p) && Qeqb y (Point.y p)) eqn:Hp.
  - exists false. split; [reflexivity |].
    apply andb_true_iff in Hp as [Hx Hy].
    apply Qeqb_eq in Hx. apply Qeqb_eq in Hy.
    split; [discriminate |].
    intros (_ & _ & p' & Hp' & Hne). exfalso. apply Hne.
    assert (p' = p) by congruence. subst p'. split; assumption.
  - exists true. split; [reflexivity |].
    split; [intros _ | reflexivity].
    split; [reflexivity |]. split; [congruence |].
    exists p. split; [reflexivity |].
    intros [Hx Hy]. apply Qeqb_eq in Hx. apply Qeqb_eq in Hy.
    rewrite Hx, Hy in Hp. discriminate.
Qed.

(** C7 as worded fails at the item whose identifier is the empty string.
    After a press on that item at (5, 5) the down identifier and the down
    point are set; asked about that very item at (5, 9), [dragDidStartAt]
    still answers [false], because [!this.downId] takes the empty string
    for a missing identifier. *)
Lemma dragDidStartAt_blank_identifier :
  downId (svc world_pressed_blank_id) = Some "" /\
  downAt (svc world_pressed_blank_id) = Some (Point.mk 5 5) /\
  dragDidStartAt "" 5 9 world_pressed_blank_id = (Ret false, world_pressed_blank_id) /\
  ~ dragDidStartAt_as_specified "" 5 9 world_pressed_blank_id.
Proof.
  assert (dragDidStartAt "" 5 9 world_pressed_blank_id
          = (Ret false, world_pressed_blank_id)) as Hrun by (vm_compute; reflexivity).
  repeat (split; [by_computation |]).
  intros (b & Hb & Hiff). rewrite Hrun in Hb. injection Hb as <-.
  destruct (proj1 Hiff eq_refl) as [H | [H | (p & Hp & _ & Hy)]].
  - apply H. split; eexists; reflexivity.
  - apply H. reflexivity.
  - vm_compute in Hp. injection Hp as <-. vm_compute in Hy. discriminate Hy.
Qed.

(** ** Start of tracking *)

(** [assertDragging] reads the engine and nothing else. *)
Lemma assertDragging_frame (functionName : string) (w : World) :
  snd (assertDragging functionName w) = w.
Proof.
  unfold assertDragging, mbind, M_bind, this.
  destruct (downAt (svc w)), (downElement (svc w)), (downRect (svc w)),
    (isDragging (svc w)), (lastPoint (svc w)); reflexivity.
Qed.

Lemma assertDragging_ok (functionName : string) (w : World)
    (at_ : Point.t) (el : HTMLElement) (rect : DOMRect.t) (last : Point.t) :
  downAt (svc w) = Some at_ -> downElement (svc w) = Some el ->
  downRect (svc w) = Some rect -> isDragging (svc w) = true ->
  lastPoint (svc w) = Some last ->
  assertDragging functionName w = (Ret (mkDragging at_ el rect last), w).
Proof.
  intros H1 H2 H3 H4 H5. unfold assertDragging, mbind, M_bind, this.
  rewrite H1, H2, H3, H4, H5. reflexivity.
Qed.

Lemma assertDragging_throws (functionName : string) (w : World) :
  downAt (svc w) = None \/ downElement (svc w) = None \/
  downRect (svc w) = None \/ lastPoint (svc w) = None ->
  assertDragging functionName w = (Throw (NotInDraggingState functionName), w).
Proof.
  intros H. unfold assertDragging, mbind, M_bind, this.
  destruct (downAt (svc w)), (downElement (svc w)), (downRect (svc w)),
    (isDragging (svc w)), (lastPoint (svc w)); try reflexivity;
    destruct H as [H | [H | [H | H]]]; discriminate.
Qed.

(** C9.  The two failures of [startTracking] differ in what they leave
    behind.  When a move or an up handler already exists, it throws with the
    world exactly as it was.  When there are no handlers but the down point,
    the down element, the down rectangle or the last point is missing, it
    throws from [assertDragging], after [isDragging] was set and the
    dragging identifier recorded: the engine then claims to be dragging
    without the state a drag needs, and no handler or listener was
    installed. *)
Theorem startTracking_failures (id : string) (event : PointerEvent)
    (onDragTo : Callback) (w : World) :
  (is_Some (handleMove (svc w)) \/ is_Some (handleUp (svc w)) ->
   startTracking id event onDragTo w = (Throw HandlersAlreadyExist, w)) /\
  (handleMove (svc w) = None -> handleUp (svc w) = None ->
   downAt (svc w) = None \/ downElement (svc w) = None \/
   downRect (svc w) = None \/ lastPoint (svc w) = None ->
   exists w',
     startTracking id event onDragTo w
     = (Throw (NotInDraggingState "startTracking"), w') /\
     svc w' = with_draggingId (Some id) (with_isDragging true (svc w)) /\
     isDragging (svc w') = true /\
     draggingId (svc w') = Some id /\
     handleMove (svc w') = None /\ handleUp (svc w') = None /\
     listeners w' = listeners w /\
     trace w' = (trace w ++ [Assign F_isDragging; Assign F_draggingId])).
Proof.
  split.
  - intros H. unfold startTracking, mbind, M_bind, this.
    destruct H as [H | H].
    + rewrite (bool_decide_eq_true_2 _ H). reflexivity.
    + rewrite (bool_decide_eq_true_2 _ H). rewrite orb_true_r. reflexivity.
  - intros Hm Hu Hmissing.
    unfold startTracking, mbind, M_bind, this.
    rewrite Hm, Hu. cbn.
    rewrite assertDragging_throws by (cbn; exact Hmissing).
    eexists. split; [reflexivity |]. cbn.
    rewrite Hm, Hu, <- app_assoc. repeat split.
Qed.

Lemma startTracking_failures_witness :
  startTracking "B" (pointer 5 6) hookOnDragTo world_tracking_A
  = (Throw HandlersAlreadyExist, world_tracking_A) /\
  (exists w', startTracking "A" (pointer 5 6) hookOnDragTo (world_ABC default_options)
              = (Throw (NotInDraggingState "startTracking"), w') /\
              isDragging (svc (world_ABC default_options)) = false /\
              isDragging (svc w') = true /\
              draggingId (svc w') = Some "A" /\ downAt (svc w') = None).
Proof.
  split.
  - apply (startTracking_failures "B" (pointer 5 6) hookOnDragTo world_tracking_A).
    left. exists (MouseMoveHandler hookOnDragTo). reflexivity.
  - destruct (startTracking_failures "A" (pointer 5 6) hookOnDragTo
                (world_ABC default_options)) as [_ H].
    destruct H as (w' & E & S & D & I & _); [reflexivity | reflexivity | left; reflexivity |].
    exists w'. repeat split; try assumption. rewrite S. reflexivity.
Defined.

(** ** The committed order *)

Section FindIndex.
Context {A : Type} (p : A -> bool).

Lemma findIndex_none (l : list A) :
  Forall (fun a => p a = false) l -> findIndex p l = -1.
Proof.
  induction 1 as [| a l Ha _ IH]; cbn; [reflexivity |].
  rewrite Ha, IH. reflexivity.
Qed.

Lemma findIndex_first (l1 l2 : list A) (a : A) :
  Forall (fun a => p a = false) l1 -> p a = true ->
  findIndex p (l1 ++ a :: l2) = Z.of_nat (length l1).
Proof.
  intros H Ha. induction H as [| b l1 Hb _ IH]; cbn.
  - rewrite Ha. reflexivity.
  - rewrite Hb, IH.
    destruct (Z.ltb_spec (Z.of_nat (length l1)) 0); lia.
Qed.

(** A list with exactly one entry that satisfies [p] splits around it. *)
Lemma filter_length_one (l : list A) :
  length (List.filter p l) = 1%nat ->
  exists l1 a l2,
    l = l1 ++ a :: l2 /\ p a = true /\
    Forall (fun a => p a = false) l1 /\ Forall (fun a => p a = false) l2.
Proof.
  induction l as [| b l IH]; cbn; [discriminate |].
  destruct (p b) eqn:Hb; cbn; intros H.
  - exists [], b, l. repeat split; [exact Hb | constructor |].
    apply Forall_forall. intros c Hc.
    destruct (p c) eqn:Hpc; [| reflexivity].
    assert (c ∈ List.filter p l) as Hin.
    { apply list_elem_of_In, filter_In. split; [apply list_elem_of_In, Hc | exact Hpc]. }
    destruct (List.filter p l); [inversion Hin | discriminate].
  - destruct (IH H) as (l1 & a & l2 & -> & Ha & H1 & H2).
    exists (b :: l1), a, l2. repeat split; try assumption.
    constructor; assumption.
Qed.
End FindIndex.

Lemma without_app (l1 l2 : list string) (v : string) :
  without (l1 ++ l2) v = without l1 v ++ without l2 v.
Proof. unfold without. apply List.filter_app. Qed.

Lemma without_absent (l : list string) (v : string) :
  v ∉ l -> without l v = l.
Proof.
  unfold without. induction l as [| a l IH]; cbn; intros H; [reflexivity |].
  apply not_elem_of_cons in H as [Hne Hl].
  destruct (String.eqb_spec a v); [congruence |]. cbn. f_equal. auto.
Qed.

Lemma without_not_elem (l : list string) (v : string) : v ∉ without l v.
Proof.
  unfold without. intros H. apply list_elem_of_In, filter_In in H as [_ H].
  rewrite String.eqb_refl in H. discriminate.
Qed.

Lemma without_idemp (l : list string) (v : string) :
  without (without l v) v = without l v.
Proof. apply without_absent, without_not_elem. Qed.

Lemma without_Forall (P : string -> Prop) (l : list string) (v : string) :
  Forall P l -> Forall P (without l v).
Proof.
  unfold without. rewrite !Forall_forall. intros H a Ha.
  apply H. apply list_elem_of_In. apply list_elem_of_In, filter_In in Ha. tauto.
Qed.

(** An entry that occurs once can be pulled to the front. *)
Lemma without_Permutation (l : list string) (v : string) :
  NoDup l -> v ∈ l -> Permutation (v :: without l v) l.
Proof.
  induction 1 as [| a l Ha Hl IH]; intros Hv; [inversion Hv |].
  unfold without in *. cbn.
  destruct (String.eqb_spec a v) as [-> | Hne]; cbn.
  - fold (without l v). rewrite without_absent by exact Ha. reflexivity.
  - apply elem_of_cons in Hv as [-> | Hv]; [congruence |].
    rewrite perm_swap. apply perm_skip. auto.
Qed.

Lemma withoutPlaceholderIds_real (l : list string) :
  Forall (fun id => isPlaceholderId id = false) l -> withoutPlaceholderIds l = l.
Proof.
  unfold withoutPlaceholderIds. induction 1 as [| a l Ha _ IH]; cbn; [reflexivity |].
  rewrite Ha. cbn. f_equal. exact IH.
Qed.

Lemma withoutPlaceholderIds_split (l1 l2 : list string) (ph : string) :
  isPlaceholderId ph = true ->
  Forall (fun id => isPlaceholderId id = false) l1 ->
  Forall (fun id => isPlaceholderId id = false) l2 ->
  withoutPlaceholderIds (l1 ++ ph :: l2) = l1 ++ l2.
Proof.
  intros Hph H1 H2. unfold withoutPlaceholderIds.
  rewrite List.filter_app. cbn. rewrite Hph. cbn.
  fold (withoutPlaceholderIds l1). fold (withoutPlaceholderIds l2).
  rewrite !withoutPlaceholderIds_real by assumption. reflexivity.
Qed.

Lemma array_set_middle (l1 l2 : list string) (a v : string) :
  array_set (l1 ++ a :: l2) (Z.of_nat (length l1)) v = l1 ++ v :: l2.
Proof.
  unfold array_set.
  destruct (Z.ltb_spec (Z.of_nat (length l1)) 0); [lia |].
  rewrite Nat2Z.id. rewrite insert_app_r_alt by lia.
  rewrite Nat.sub_diag. reflexivity.
Qed.

(** The committed order when the sequence splits around its placeholder
    and the dragged identifier is a real one. *)
Lemma commitOrder_split (l1 l2 : list string) (ph droppedId : string) :
  isPlaceholderId ph = true -> isPlaceholderId droppedId = false ->
  Forall (fun id => isPlaceholderId id = false) l1 ->
  Forall (fun id => isPlaceholderId id = false) l2 ->
  commitOrder (l1 ++ ph :: l2) droppedId
  = without l1 droppedId ++ droppedId :: without l2 droppedId.
Proof.
  intros Hph Hd H1 H2. unfold commitOrder.
  assert (without (l1 ++ ph :: l2) droppedId
          = without l1 droppedId ++ ph :: without l2 droppedId) as ->.
  { rewrite without_app. f_equal. unfold without at 1. cbn.
    destruct (String.eqb_spec ph droppedId); [congruence | reflexivity]. }
  rewrite findIndex_first by (try apply without_Forall; assumption).
  apply array_set_middle.
Qed.

(** C3.  For a sequence of distinct identifiers that contains the dragged
    identifier and exactly one placeholder identifier, the order committed
    outside the ejected state is a permutation of the sequence without its
    placeholder, and apart from the dragged identifier every identifier
    keeps its place relative to the others. *)
Theorem commitOrder_permutation (orderedElementIds : list string) (droppedId : string) :
  NoDup orderedElementIds ->
  droppedId ∈ orderedElementIds ->
  length (List.filter isPlaceholderId orderedElementIds) = 1%nat ->
  Permutation (commitOrder orderedElementIds droppedId)
              (withoutPlaceholderIds orderedElementIds) /\
  without (commitOrder orderedElementIds droppedId) droppedId
  = without (withoutPlaceholderIds orderedElementIds) droppedId.
Proof.
  intros Hnd Hin Hone.
  destruct (filter_length_one _ _ Hone) as (l1 & ph & l2 & -> & Hph & H1 & H2).
  rewrite withoutPlaceholderIds_split by assumption.
  apply NoDup_app in Hnd as (Hnd1 & Hdisj & Hnd2).
  apply NoDup_cons in Hnd2 as [Hph2 Hnd2].
  assert (ph ∉ l1) as Hph1 by (intros H; apply (Hdisj _ H); left).
  assert (NoDup (l1 ++ l2)) as Hnd12.
  { apply NoDup_app. repeat split; try assumption.
    intros a Ha1 Ha2. apply (Hdisj _ Ha1). right. exact Ha2. }
  destruct (isPlaceholderId droppedId) eqn:Hd.
  - (* the dragged identifier is the placeholder itself *)
    assert (droppedId = ph) as ->.
    { apply elem_of_app in Hin as [Hin | Hin].
      - rewrite Forall_forall in H1. rewrite (H1 _ Hin) in Hd. discriminate.
      - apply elem_of_cons in Hin as [-> | Hin]; [reflexivity |].
        rewrite Forall_forall in H2. rewrite (H2 _ Hin) in Hd. discriminate. }
    unfold commitOrder.
    assert (without (l1 ++ ph :: l2) ph = l1 ++ l2) as ->.
    { rewrite without_app. unfold without at 2. cbn. rewrite String.eqb_refl. cbn.
      fold (without l2 ph). rewrite !without_absent by assumption. reflexivity. }
    rewrite findIndex_none by (apply Forall_app; split; assumption).
    cbn. split; reflexivity.
  - rewrite commitOrder_split by assumption.
    assert (droppedId ∈ l1 ++ l2) as Hin'.
    { apply elem_of_app in Hin as [Hin | Hin]; apply elem_of_app; [left; exact Hin |].
      apply elem_of_cons in Hin as [-> | Hin]; [congruence | right; exact Hin]. }
    split.
    + rewrite <- Permutation_middle, <- without_app.
      apply without_Permutation; assumption.
    + assert (without (droppedId :: without l2 droppedId) droppedId
              = without l2 droppedId) as Htail.
      { unfold without at 1. cbn. rewrite String.eqb_refl. cbn. apply without_idemp. }
      rewrite (without_app l1 l2).
      rewrite (without_app (without l1 droppedId) (droppedId :: without l2 droppedId)).
      rewrite without_idemp, Htail. reflexivity.
Qed.

Lemma commitOrder_permutation_witness :
  Permutation (commitOrder ["A"; "B"; "rhah-placeholder-0"; "C"] "A") ["A"; "B"; "C"] /\
  commitOrder ["A"; "B"; "rhah-placeholder-0"; "C"] "A" = ["B"; "A"; "C"].
Proof.
  split; [| reflexivity].
  apply (commitOrder_permutation ["A"; "B"; "rhah-placeholder-0"; "C"] "A").
  - apply (bool_decide_unpack _). vm_compute. exact I.
  - apply (bool_decide_unpack _). vm_compute. exact I.
  - reflexivity.
Defined.

(** ** Release *)

(** What the release handler does when its preconditions hold. *)
Lemma handleUp_body_runs (w : World) (move up_ : Listener) (el : HTMLElement)
    (droppedId : string) (i j : Z) :
  handleMove (svc w) = Some move -> handleUp (svc w) = Some up_ ->
  downElement (svc w) = Some el ->
  draggingId (svc w) = Some droppedId -> droppedId <> "" ->
  placeholderItemIndex (svc w) = Some i ->
  placeholderElementIndex (svc w) = Some j ->
  exists w',
    handleUp_body w = (Ret tt, w') /\
    trace w' = trace w ++ release_effects (svc w) move up_ el droppedId /\
    listeners w'
    = List.filter (fun r => negb (bool_decide (r = (mouseup, up_))))
        (List.filter (fun r => negb (bool_decide (r = (mousemove, move)))) (listeners w)) /\
    Element.style (element_of w' el) = Style.empty /\
    svc w'
    = with_downRect None (with_downElement None (with_draggingId None
        (with_isDragging false (with_lastPoint None (with_downAt None
          (with_downId None (with_handleUp None (with_handleMove None (svc w))))))))).
Proof.
  intros Hm Hu He Hd Hne Hi Hj.
  unfold handleUp_body, mbind, M_bind, this.
  rewrite Hm, Hu, He, Hd, Hi, Hj.
  assert (truthy_string (Some droppedId) = true) as ->.
  { cbn. destruct (String.eqb_spec droppedId ""); [congruence | reflexivity]. }
  cbn. rewrite Hi.
  unfold release_effects, committedOrder. rewrite Hi.
  destruct (bool_decide (Some i = Some (-2))); cbn;
    (eexists; split; [reflexivity |]; cbn;
     repeat rewrite <- app_assoc; cbn;
     split; [reflexivity |]; split; [reflexivity |]; split; [| reflexivity];
     unfold element_of; cbn; rewrite !lookup_insert_eq; reflexivity).
Qed.

Lemma release_ready_inv (s : DragService) :
  release_ready s ->
  exists move up_ el droppedId i j,
    handleMove s = Some move /\ handleUp s = Some up_ /\ downElement s = Some el /\
    draggingId s = Some droppedId /\ droppedId <> "" /\
    placeholderItemIndex s = Some i /\ placeholderElementIndex s = Some j.
Proof.
  intros ([move Hm] & [up_ Hu] & [el He] & Ht & [i Hi] & [j Hj]).
  destruct (draggingId s) as [droppedId |] eqn:Hd; [| discriminate].
  exists move, up_, el, droppedId, i, j. repeat split; try assumption.
  intros ->. discriminate.
Qed.

Lemma not_elem_of_filter_out {A : Type} `{EqDecision A} (a : A) (l : list A) :
  a ∉ List.filter (fun r => negb (bool_decide (r = a))) l.
Proof.
  intros H. apply list_elem_of_In, filter_In in H as [_ H].
  rewrite bool_decide_eq_true_2 in H by reflexivity. discriminate.
Qed.

(** C6, as the code has it.  A release whose preconditions hold performs,
    in this order: the removal of the move and of the up listener from
    [window]; the clearing of [position], [top] and [left] of the dragged
    element; the reset of [handleMove], [handleUp], [downId], [downAt],
    [lastPoint], [isDragging], [draggingId], [downElement] and [downRect];
    and only then the call of [onDragEnd] with the committed order.  The
    last vertical direction is not among the fields reset: it keeps its
    value until the next press clears it. *)
Theorem release_in_order (w : World) :
  release_ready (svc w) ->
  exists w' move up_ el droppedId,
    handleMove (svc w) = Some move /\ handleUp (svc w) = Some up_ /\
    downElement (svc w) = Some el /\ draggingId (svc w) = Some droppedId /\
    handleUp_body w = (Ret tt, w') /\
    trace w' = trace w ++ release_effects (svc w) move up_ el droppedId /\
    ((mousemove, move) ∉ listeners w') /\ ((mouseup, up_) ∉ listeners w') /\
    Element.style (element_of w' el) = Style.empty /\
    handleMove (svc w') = None /\ handleUp (svc w') = None /\
    downId (svc w') = None /\ downAt (svc w') = None /\
    lastPoint (svc w') = None /\ isDragging (svc w') = false /\
    draggingId (svc w') = None /\ downElement (svc w') = None /\
    downRect (svc w') = None /\
    lastDirection (svc w') = lastDirection (svc w).
Proof.
  intros Hready.
  destruct (release_ready_inv _ Hready)
    as (move & up_ & el & droppedId & i & j & Hm & Hu & He & Hd & Hne & Hi & Hj).
  destruct (handleUp_body_runs w move up_ el droppedId i j Hm Hu He Hd Hne Hi Hj)
    as (w' & Hrun & Htrace & Hls & Hstyle & Hsvc).
  exists w', move, up_, el, droppedId.
  repeat (split; [assumption |]).
  split.
  { rewrite Hls. intros H. apply list_elem_of_In, filter_In in H as [H _].
    apply list_elem_of_In in H. revert H. apply not_elem_of_filter_out. }
  split; [rewrite Hls; apply not_elem_of_filter_out |].
  split; [exact Hstyle |].
  rewrite Hsvc. repeat split.
Qed.

Lemma release_in_order_witness :
  exists w',
    handleUp_body world_A_past_B = (Ret tt, w') /\
    dragEnd_calls (trace w') = [["B"; "A"; "C"]] /\
    listeners w' = [] /\ isDragging (svc w') = false.
Proof.
  destruct (release_in_order world_A_past_B)
    as (w' & move & up_ & el & droppedId & Hm & Hu & He & Hd & Hrun & Htr & R);
    [ready |].
  exists w'. split; [exact Hrun |].
  assert (Hw : w' = snd (handleUp_body world_A_past_B)) by (rewrite Hrun; reflexivity).
  rewrite Hw. vm_compute. repeat split.
Defined.

(** C6 as worded fails: after [A] was dragged past [B] and released, the
    last vertical direction is still ["down"] (and the placeholder indexes
    are still set), so the tracking state is not back at the baseline. *)
Lemma release_keeps_direction :
  release_ready (svc world_A_past_B) /\
  lastDirection (svc (snd (handleUp_body world_A_past_B))) = Some down /\
  ~ release_resets_everything world_A_past_B.
Proof.
  split; [ready |]. split; [vm_compute; reflexivity |].
  intros H. destruct H as (w' & Hrun & Hbase); [ready |].
  assert (Hw : w' = snd (handleUp_body world_A_past_B)) by (rewrite Hrun; reflexivity).
  destruct Hbase as (_ & _ & _ & _ & _ & _ & _ & Hdir & _).
  rewrite Hw in Hdir. vm_compute in Hdir. discriminate Hdir.
Qed.

(** The placeholder indexes are not among the fields a release assigns.
    After the drag of [A] past [B] they stay at 2.  When [B], now first, is
    dragged past [A] in the same way, the index the move computes is 2
    again: it equals the recorded one, nothing is reported, no placeholder
    is rendered, and the release commits [A, C]. *)
Lemma second_drag_reports_nothing :
  placeholderItemIndex (svc (snd (handleUp_body world_A_past_B))) = Some 2 /\
  dragTo_calls (trace world_after_second_drag) = [2] /\
  dragEnd_calls (trace world_after_second_drag) = [["B"; "A"; "C"]; ["A"; "C"]].
Proof. repeat split; by_computation. Qed.

Lemma dragEnd_calls_release (tr : list Effect) (s : DragService)
    (move up_ : Listener) (el : HTMLElement) (droppedId : string) :
  dragEnd_calls (tr ++ release_effects s move up_ el droppedId)
  = (dragEnd_calls tr ++ [committedOrder s droppedId]).
Proof. unfold dragEnd_calls. rewrite omap_app. reflexivity. Qed.

Lemma withoutPlaceholderIds_keeps (ids : list string) (id : string) :
  id ∈ ids -> isPlaceholderId id = false -> id ∈ withoutPlaceholderIds ids.
Proof.
  intros Hin Hreal. unfold withoutPlaceholderIds.
  apply list_elem_of_In, filter_In. split; [apply list_elem_of_In, Hin |].
  rewrite Hreal. reflexivity.
Qed.

(** C1, as the code has it.  The engine built by the hook is the same
    whatever the ejection-drop option says: the constructor reads the
    completion callback only.  A release in the ejected state whose
    preconditions hold hands to the completion callback the ordered
    identifier sequence without its placeholder entries, and every real
    identifier of the sequence, the dragged one included, is in that
    order. *)
Theorem ejected_release_commits (items : list string) (oc : option Callback)
    (flag flag' : option bool) (w : World) :
  newService items (mkHookOptions oc flag) = newService items (mkHookOptions oc flag') /\
  (release_ready (svc w) -> placeholderItemIndex (svc w) = Some (-2) ->
   exists w',
     handleUp_body w = (Ret tt, w') /\
     dragEnd_calls (trace w')
     = (dragEnd_calls (trace w)
        ++ [withoutPlaceholderIds (orderedElementIds (svc w))]) /\
     forall id, id ∈ orderedElementIds (svc w) -> isPlaceholderId id = false ->
                id ∈ withoutPlaceholderIds (orderedElementIds (svc w))).
Proof.
  split; [reflexivity |].
  intros Hready Hejected.
  destruct (release_ready_inv _ Hready)
    as (move & up_ & el & droppedId & i & j & Hm & Hu & He & Hd & Hne & Hi & Hj).
  destruct (handleUp_body_runs w move up_ el droppedId i j Hm Hu He Hd Hne Hi Hj)
    as (w' & Hrun & Htrace & _).
  exists w'. split; [exact Hrun |]. split.
  - rewrite Htrace, dragEnd_calls_release. unfold committedOrder.
    rewrite bool_decide_eq_true_2 by exact Hejected. reflexivity.
  - intros id. apply withoutPlaceholderIds_keeps.
Qed.

Lemma ejected_release_commits_witness :
  exists w',
    handleUp_body world_A_ejected_forbidden = (Ret tt, w') /\
    dragEnd_calls (trace w') = [["A"; "B"; "C"]].
Proof.
  destruct (ejected_release_commits ["A"; "B"; "C"] None (Some false) None
              world_A_ejected_forbidden) as [_ H].
  destruct H as (w' & Hrun & Hcalls & _); [ready | reflexivity |].
  exists w'. split; [exact Hrun |]. rewrite Hcalls. vm_compute. reflexivity.
Defined.

(** C1 as worded fails.  With ejection-drop forbidden, [A] is dragged below
    the list and released in the ejected state: the release commits
    [A, B, C], an order that still holds the dragged identifier, and it does
    so although the option forbids the drop. *)
Lemma ejected_release_keeps_dragged :
  release_ready (svc world_A_ejected_forbidden) /\
  placeholderItemIndex (svc world_A_ejected_forbidden) = Some (-2) /\
  draggingId (svc world_A_ejected_forbidden) = Some "A" /\
  dragEnd_calls (trace (snd (handleUp_body world_A_ejected_forbidden)))
  = [["A"; "B"; "C"]] /\
  ~ ejected_release_drops forbidden_options world_A_ejected_forbidden.
Proof.
  split; [ready |]. do 3 (split; [vm_compute; reflexivity |]).
  intros H. destruct H as (w' & droppedId & _ & _ & _ & _ & Hflag); [ready | reflexivity |].
  discriminate Hflag.
Qed.

(** The same release with ejection-drop permitted: the dragged identifier
    is not dropped either. *)
Lemma permitted_release_keeps_dragged :
  ~ ejected_release_drops default_options world_A_ejected_permitted.
Proof.
  intros H.
  destruct H as (w' & droppedId & Hd & _ & _ & Hnot & _); [ready | reflexivity |].
  apply Hnot. vm_compute in Hd. injection Hd as <-.
  apply (bool_decide_unpack _). vm_compute. exact I.
Qed.

(** ** The move handler *)

Lemma getRect_frame (element : option HTMLElement) (w : World) :
  snd (getRect element w) = w.
Proof.
  unfold getRect, mbind, M_bind, getBoundingClientRect, process_env_test.
  destruct element as [el |]; [| reflexivity].
  destruct (Qeqb _ 0 && node_env_test w); reflexivity.
Qed.

Lemma getRect_ok (el : HTMLElement) (w : World) :
  Qeqb (DOMRect.bottom (Element.boundingClientRect (element_of w el))) 0
  && node_env_test w = false ->
  getRect (Some el) w = (Ret (Element.boundingClientRect (element_of w el)), w).
Proof.
  intros H. unfold getRect, mbind, M_bind, getBoundingClientRect, process_env_test.
  rewrite H. reflexivity.
Qed.

Lemma isLastPossibleElement_frame (service : DragService) (elementIndex : Z) (w : World) :
  snd (isLastPossibleElement service elementIndex w) = w.
Proof.
  unfold isLastPossibleElement, mbind, M_bind, dataset_rhahOrderableListId.
  destruct (elementIndex =? 1); [| reflexivity].
  destruct (elements service !! 0); reflexivity.
Qed.

(** The loops read the registry and the DOM; they change nothing. *)
Lemma walkDown_frame (service : DragService) (dx dy : Q) (downRect : DOMRect.t)
    (indexes : list Z) (itemIndex : Z) (new : Z * Z) (w : World) :
  snd (walkDown service dx dy downRect indexes itemIndex new w) = w.
Proof.
  revert itemIndex new. induction indexes as [| elementIndex rest IH]; intros; cbn.
  - reflexivity.
  - unfold mbind, M_bind.
    pose proof (getRect_frame (elements service !! elementIndex) w) as Hr.
    destruct (getRect (elements service !! elementIndex) w) as [[rect | e] w1];
      cbn in Hr; subst w1; [| reflexivity].
    destruct ((elementIndex =? maxElementIndex service) && isBelow dx dy downRect rect);
      [reflexivity |].
    destruct (intrudesDown dy downRect rect); [apply IH | reflexivity].
Qed.

Lemma walkUp_frame (service : DragService) (dx dy : Q) (downRect : DOMRect.t)
    (indexes : list Z) (new : Z * Z) (w : World) :
  snd (walkUp service dx dy downRect indexes new w) = w.
Proof.
  revert new. induction indexes as [| elementIndex rest IH]; intros; cbn.
  - reflexivity.
  - unfold mbind, M_bind.
    pose proof (getRect_frame (elements service !! elementIndex) w) as Hr.
    destruct (getRect (elements service !! elementIndex) w) as [[rect | e] w1];
      cbn in Hr; subst w1; [| reflexivity].
    pose proof (isLastPossibleElement_frame service elementIndex w) as Hl.
    destruct (isLastPossibleElement service elementIndex w) as [[last | e] w1];
      cbn in Hl; subst w1; [| reflexivity].
    destruct (last && isAbove dx dy downRect rect); [reflexivity |].
    destruct (intrudesUp dy downRect rect); [apply IH | reflexivity].
Qed.

Lemma directionOf_spec (dyFromLastPoint : Q) (previous : option Direction) :
  ((0 < dyFromLastPoint)%Q -> directionOf dyFromLastPoint previous = down) /\
  ((dyFromLastPoint < 0)%Q -> directionOf dyFromLastPoint previous = up) /\
  ((dyFromLastPoint == 0)%Q ->
   directionOf dyFromLastPoint previous = default down previous).
Proof.
  unfold directionOf. repeat split; intros H.
  - rewrite (proj2 (Qgtb_gt _ _)) by exact H. reflexivity.
  - rewrite (proj2 (Qgtb_le _ _)) by lra.
    rewrite (proj2 (Qltb_lt _ _)) by exact H. reflexivity.
  - rewrite (proj2 (Qgtb_le _ _)) by lra.
    rewrite (proj2 (Qltb_ge _ _)) by lra. reflexivity.
Qed.

Lemma walk_frame (direction : Direction) (event : PointerEvent) (w : World)
    (at_ : Point.t) (rect : DOMRect.t) (w2 : World) :
  snd (walk direction event w at_ rect w2) = w2.
Proof.
  unfold walk. destruct direction; [apply walkUp_frame | apply walkDown_frame].
Qed.

Section Move.
Variables (onDragTo : Callback) (event : PointerEvent) (w : World).
Variables (at_ : Point.t) (el : HTMLElement) (rect : DOMRect.t) (last : Point.t).
Hypothesis Hat : downAt (svc w) = Some at_.
Hypothesis Hel : downElement (svc w) = Some el.
Hypothesis Hrect : downRect (svc w) = Some rect.
Hypothesis Hdragging : isDragging (svc w) = true.
Hypothesis Hlast : lastPoint (svc w) = Some last.

Let direction : Direction :=
  directionOf (clientY event - Point.y last) (lastDirection (svc w)).

(** The handler up to and including the loop. *)
Lemma handleMouseMove_throws (e : Error) :
  fst (walk direction event w at_ rect (recorded direction event w)) = Throw e ->
  handleMouseMove onDragTo event w = (Throw e, recorded direction event w).
Proof.
  intros Hwalk.
  pose proof (walk_frame direction event w at_ rect (recorded direction event w)) as Hf.
  destruct (walk direction event w at_ rect (recorded direction event w))
    as [o w3] eqn:E. cbn in Hwalk, Hf. subst o w3.
  unfold handleMouseMove, mbind, M_bind.
  rewrite (assertDragging_ok _ w at_ el rect last Hat Hel Hrect Hdragging Hlast).
  unfold this, assign. cbn. fold direction.
  unfold getDragElementPosition, mbind, M_bind.
  fold (recorded direction event w).
  rewrite (assertDragging_ok _ (recorded direction event w) at_ el rect
             (Point.mk (clientY event) (clientY event))) by (cbn; first [assumption | reflexivity]).
  unfold mret, M_ret. cbn.
  unfold walk in E. cbn in E.
  destruct direction; cbn; rewrite E; reflexivity.
Qed.

(** The handler when the loop ends with the pair [new]. *)
Lemma handleMouseMove_returns (new : Z * Z) :
  fst (walk direction event w at_ rect (recorded direction event w)) = Ret new ->
  exists w',
    handleMouseMove onDragTo event w = (Ret tt, w') /\
    lastPoint (svc w') = Some (Point.mk (clientY event) (clientY event)) /\
    lastDirection (svc w') = Some direction /\
    placeholderItemIndex (svc w') = Some (fst new) /\
    dragTo_calls (trace w')
    = dragTo_calls (trace w)
      ++ (if number_neq (placeholderItemIndex (svc w)) (fst new) then [fst new] else []) /\
    svc w'
    = (if number_neq (placeholderItemIndex (svc w)) (fst new)
       then with_placeholderElementIndex (Some (snd new))
              (with_placeholderItemIndex (Some (fst new))
                 (svc (recorded direction event w)))
       else svc (recorded direction event w)) /\
    listeners w' = listeners w /\
    Element.style (element_of w' el)
    = Style.mk css_absolute
        (css_px (DOMRect.top rect + clientY event - Point.y at_))
        (css_px (DOMRect.left rect + clientX event - Point.x at_)).
Proof.
  intros Hwalk.
  pose proof (walk_frame direction event w at_ rect (recorded direction event w)) as Hf.
  destruct (walk direction event w at_ rect (recorded direction event w))
    as [o w3] eqn:E. cbn in Hwalk, Hf. subst o w3.
  unfold handleMouseMove, mbind, M_bind.
  rewrite (assertDragging_ok _ w at_ el rect last Hat Hel Hrect Hdragging Hlast).
  unfold this, assign. cbn. fold direction.
  unfold getDragElementPosition, mbind, M_bind.
  fold (recorded direction event w).
  rewrite (assertDragging_ok _ (recorded direction event w) at_ el rect
             (Point.mk (clientY event) (clientY event))) by (cbn; first [assumption | reflexivity]).
  unfold mret, M_ret. cbn.
  unfold walk in E. cbn in E.
  assert (forall tr, dragTo_calls ((tr ++ [Assign F_lastDirection]) ++ [Assign F_lastPoint])
                     = dragTo_calls tr) as Hcalls.
  { intros tr. unfold dragTo_calls. rewrite !omap_app. cbn. rewrite !app_nil_r.
    reflexivity. }
  destruct direction; cbn; rewrite E; cbn;
    (destruct (number_neq (placeholderItemIndex (svc w)) (fst new)) eqn:Hneq; cbn;
     [ eexists; split; [reflexivity |]; cbn;
       split; [reflexivity |]; split; [reflexivity |]; split; [reflexivity |];
       split; [unfold dragTo_calls; rewrite !omap_app; cbn; rewrite !app_nil_r;
               reflexivity |];
       split; [reflexivity |]; split; [reflexivity |];
       unfold element_of; cbn; rewrite !lookup_insert_eq; reflexivity
     | eexists; split; [reflexivity |]; cbn;
       split; [reflexivity |]; split; [reflexivity |];
       split; [ unfold number_neq in Hneq;
                destruct (placeholderItemIndex (svc w)) as [i |]; [| discriminate];
                apply negb_false_iff, Z.eqb_eq in Hneq; congruence |];
       split; [unfold dragTo_calls; rewrite !omap_app; cbn; rewrite !app_nil_r;
               reflexivity |];
       split; [reflexivity |]; split; [reflexivity |];
       unfold element_of; cbn; rewrite !lookup_insert_eq; reflexivity ]).
Qed.
End Move.

(** C5, as the code has it.  A move event delivered in the dragging state
    sets the last vertical direction to ["down"] when the pointer is lower
    than the last point, to ["up"] when it is higher, and otherwise to the
    previous direction, ["down"] if there is none.  It sets both
    coordinates of the last point to the event's [clientY]: [clientX] is
    not recorded.  This holds whether the handler returns or throws from
    its loop. *)
Theorem move_records_direction_and_point (onDragTo : Callback) (event : PointerEvent)
    (w : World) (at_ last : Point.t) (el : HTMLElement) (rect : DOMRect.t) :
  dragging_at (svc w) at_ last el rect ->
  let w' := snd (handleMouseMove onDragTo event w) in
  let dyFromLastPoint := (clientY event - Point.y last)%Q in
  lastPoint (svc w') = Some (Point.mk (clientY event) (clientY event)) /\
  ((0 < dyFromLastPoint)%Q -> lastDirection (svc w') = Some down) /\
  ((dyFromLastPoint < 0)%Q -> lastDirection (svc w') = Some up) /\
  ((dyFromLastPoint == 0)%Q ->
   lastDirection (svc w') = Some (default down (lastDirection (svc w)))).
Proof.
  intros (Hat & Hel & Hrect & Hdragging & Hlast). cbv zeta.
  set (direction := directionOf (clientY event - Point.y last) (lastDirection (svc w))).
  assert (lastPoint (svc (snd (handleMouseMove onDragTo event w)))
          = Some (Point.mk (clientY event) (clientY event)) /\
          lastDirection (svc (snd (handleMouseMove onDragTo event w)))
          = Some direction) as [Hpoint Hdir].
  { destruct (fst (walk direction event w at_ rect (recorded direction event w)))
      as [new | e] eqn:Hwalk.
    - destruct (handleMouseMove_returns onDragTo event w at_ el rect last
                  Hat Hel Hrect Hdragging Hlast new Hwalk) as (w' & -> & Hp & Hd & _).
      split; assumption.
    - rewrite (handleMouseMove_throws onDragTo event w at_ el rect last
                 Hat Hel Hrect Hdragging Hlast e Hwalk).
      split; reflexivity. }
  split; [exact Hpoint |]. rewrite Hdir. unfold direction.
  destruct (directionOf_spec (clientY event - Point.y last) (lastDirection (svc w)))
    as (Hdown & Hup & Hsame).
  repeat split; intros H; f_equal; auto.
Qed.

Lemma move_records_direction_and_point_witness :
  let w' := snd (handleMouseMove hookOnDragTo (pointer 9 17) world_tracking_A) in
  clientX (pointer 9 17) = 9%Q /\
  lastPoint (svc w') = Some (Point.mk 17 17) /\
  lastDirection (svc w') = Some down.
Proof.
  cbv zeta. split; [reflexivity |].
  destruct (move_records_direction_and_point hookOnDragTo (pointer 9 17) world_tracking_A
              (Point.mk 5 5) (Point.mk 5 5) 1%nat (rowAt 0)) as (Hp & Hd & _).
  { repeat split. }
  split; [exact Hp |]. apply Hd. reflexivity.
Defined.

(** One turn of the downward loop over a registered element whose rectangle
    [getRect] accepts. *)
Lemma walkDown_turn (service : DragService) (dx dy : Q) (downRect : DOMRect.t)
    (elementIndex : Z) (rest : list Z) (itemIndex : Z) (new : Z * Z)
    (w : World) (el : HTMLElement) :
  elements service !! elementIndex = Some el ->
  rect_accepted w el ->
  walkDown service dx dy downRect (elementIndex :: rest) itemIndex new w
  = let targetRect := Element.boundingClientRect (element_of w el) in
    let itemIndex' :=
      if number_neq (placeholderElementIndex service) elementIndex
      then itemIndex + 1 else itemIndex in
    if (elementIndex =? maxElementIndex service) && isBelow dx dy downRect targetRect
    then (Ret (-2, -2), w)
    else if intrudesDown dy downRect targetRect
    then walkDown service dx dy downRect rest itemIndex' (itemIndex', itemIndex') w
    else (Ret new, w).
Proof.
  intros Hel Hok. cbn. unfold mbind, M_bind. rewrite Hel.
  rewrite (getRect_ok el w Hok). cbv zeta.
  destruct ((elementIndex =? maxElementIndex service) && isBelow dx dy downRect _);
    [reflexivity |].
  destruct (intrudesDown dy downRect _); reflexivity.
Qed.

Lemma indexesDown_cons (service : DragService) :
  0 <= maxElementIndex service ->
  indexesDown service = 0 :: seqZ 1 (maxElementIndex service).
Proof.
  intros H. unfold indexesDown. rewrite seqZ_cons by lia.
  f_equal. f_equal. lia.
Qed.

(** C10.  A placeholder index of 0 is taken for a missing one.  The
    candidate index [0 || -2] is [-2]; [getItemIndex] answers for a
    placeholder at element index 0 as it does without a placeholder; and a
    downward move in the dragging state, with both placeholder indexes at 0
    and a first element the dragged rectangle neither intrudes on nor has
    left behind, stops the loop at that element with the candidate
    untouched: the handler records and reports [-2]. *)
Theorem placeholder_zero_is_taken_for_none (onDragTo : Callback) (event : PointerEvent)
    (w : World) (at_ last : Point.t) (el first : HTMLElement) (rect : DOMRect.t) :
  number_or (Some 0) (-2) = -2 /\
  (forall service elementIndex,
     placeholderElementIndex service = Some 0 ->
     getItemIndex service elementIndex = elementIndex /\
     getItemIndex service elementIndex
     = getItemIndex (with_placeholderElementIndex None service) elementIndex) /\
  (dragging_at (svc w) at_ last el rect ->
   placeholderItemIndex (svc w) = Some 0 ->
   placeholderElementIndex (svc w) = Some 0 ->
   (0 < clientY event - Point.y last)%Q ->
   0 <= maxElementIndex (svc w) ->
   elements (svc w) !! 0 = Some first ->
   rect_accepted w first ->
   let dy := (clientY event - Point.y at_)%Q in
   let dx := (clientX event - Point.x at_)%Q in
   let targetRect := Element.boundingClientRect (element_of w first) in
   intrudesDown dy rect targetRect = false ->
   (maxElementIndex (svc w) = 0 -> isBelow dx dy rect targetRect = false) ->
   exists w',
     handleMouseMove onDragTo event w = (Ret tt, w') /\
     placeholderItemIndex (svc w') = Some (-2) /\
     dragTo_calls (trace w') = dragTo_calls (trace w) ++ [-2]).
Proof.
  split; [reflexivity |]. split.
  { intros service elementIndex H. unfold getItemIndex. cbn. rewrite H. cbn.
    split; reflexivity. }
  intros (Hat & Hel & Hrect & Hdragging & Hlast) Hitem Helem Hdown Hmax Hfirst Hok.
  cbv zeta. intros Hno Hbelow.
  destruct (directionOf_spec (clientY event - Point.y last) (lastDirection (svc w)))
    as (Hdir & _ & _). specialize (Hdir Hdown).
  assert (fst (walk down event w at_ rect (recorded down event w)) = Ret (-2, -2)) as Hwalk.
  { unfold walk. cbv zeta.
    rewrite indexesDown_cons by exact Hmax.
    rewrite (walkDown_turn _ _ _ _ _ _ _ _ _ first) by assumption.
    cbv zeta.
    change (placeholderItemIndex (svc (recorded down event w)))
      with (placeholderItemIndex (svc w)).
    change (placeholderElementIndex (svc (recorded down event w)))
      with (placeholderElementIndex (svc w)).
    change (maxElementIndex (svc (recorded down event w)))
      with (maxElementIndex (svc w)).
    change (element_of (recorded down event w) first) with (element_of w first).
    rewrite Hitem, Helem, Hno.
    destruct (Z.eqb_spec 0 (maxElementIndex (svc w))) as [E | E].
    - rewrite Hbelow by congruence. reflexivity.
    - reflexivity. }
  rewrite <- Hdir in Hwalk.
  destruct (handleMouseMove_returns onDragTo event w at_ el rect last
              Hat Hel Hrect Hdragging Hlast _ Hwalk) as (w' & Hrun & _ & _ & Hp & Hcalls & _).
  exists w'. split; [exact Hrun |]. split; [exact Hp |].
  rewrite Hcalls, Hitem. reflexivity.
Qed.

Lemma placeholder_zero_is_taken_for_none_witness :
  placeholderItemIndex (svc world_B_at_top) = Some 0 /\
  exists w',
    handleMouseMove hookOnDragTo (pointer 5 (-9)) world_B_at_top = (Ret tt, w') /\
    placeholderItemIndex (svc w') = Some (-2) /\
    dragTo_calls (trace w') = [0; -2].
Proof.
  split; [reflexivity |].
  destruct (placeholder_zero_is_taken_for_none hookOnDragTo (pointer 5 (-9))
              world_B_at_top (Point.mk 5 25) (Point.mk (-10) (-10)) 2%nat 4%nat (rowAt 20))
    as (_ & _ & H).
  destruct H as (w' & Hrun & Hp & Hcalls).
  - repeat split.
  - reflexivity.
  - reflexivity.
  - vm_compute. reflexivity.
  - vm_compute. discriminate.
  - vm_compute. reflexivity.
  - vm_compute. reflexivity.
  - vm_compute. reflexivity.
  - vm_compute. discriminate.
  - exists w'. split; [exact Hrun |]. split; [exact Hp |].
    rewrite Hcalls. vm_compute. reflexivity.
Defined.

(** ** Dragging the first of three rows past the second *)

Lemma isBelow_false (dx dy : Q) (dragged target : DOMRect.t) :
  (DOMRect.top dragged + dy <= DOMRect.bottom target)%Q ->
  (DOMRect.left target <= DOMRect.right dragged + dx)%Q ->
  (DOMRect.left dragged + dx <= DOMRect.right target)%Q ->
  isBelow dx dy dragged target = false.
Proof.
  intros H1 H2 H3. unfold isBelow.
  rewrite (proj2 (Qgtb_le _ _)) by exact H1.
  rewrite (proj2 (Qltb_ge _ _)) by exact H2.
  rewrite (proj2 (Qgtb_le _ _)) by exact H3.
  reflexivity.
Qed.

Lemma rect_accepted_positive (w : World) (el : HTMLElement) :
  (0 < DOMRect.bottom (Element.boundingClientRect (element_of w el)))%Q ->
  rect_accepted w el.
Proof.
  intros H. unfold rect_accepted.
  destruct (Qeqb _ 0) eqn:E; [| reflexivity].
  apply Qeqb_eq in E. lra.
Qed.

Lemma last_dragEnd_calls_release (tr : list Effect) (s : DragService)
    (move up_ : Listener) (el : HTMLElement) (droppedId : string) :
  last (dragEnd_calls (tr ++ release_effects s move up_ el droppedId))
  = Some (committedOrder s droppedId).
Proof. rewrite dragEnd_calls_release. apply last_snoc. Qed.


(** The same drag in two moves, by 1 and then by 12: index 1 is reported
    while [A] has not reached the threshold of [B], and a release at that
    point would commit the order unchanged; past the threshold the index
    reported is 2 again. *)
Lemma drag_A_slowly_past_B_reports_2 :
  reported_index world_A_moved_by_1 = Some 1 /\
  committed (snd (handleUp_body world_A_moved_by_1)) = Some ["A"; "B"; "C"] /\
  dragTo_calls (trace world_A_slowly_past_B) = [1; 2] /\
  committed (snd (handleUp_body world_A_slowly_past_B)) = Some ["B"; "A"; "C"].
Proof. repeat split; by_computation. Qed.

(** * Further properties *)

(** ** A press *)

(** What a press on an HTML element leaves behind. *)
Lemma onMouseDown_runs (el : HTMLElement) (x y : Q) (w : World) :
  exists w',
    onMouseDown (pointer_on el x y) w = (Ret tt, w') /\
    svc w'
    = with_downRect (Some (Element.boundingClientRect (element_of w el)))
        (with_downId (Element.rhahOrderableListId (element_of w el))
           (with_downElement (Some el)
              (with_lastDirection None
                 (with_downAt (Some (Point.mk x y))
                    (with_lastPoint (Some (Point.mk x y)) (svc w)))))) /\
    dom w' = dom w /\ listeners w' = listeners w /\
    node_env_test w' = node_env_test w.
Proof.
  unfold onMouseDown, assertHTMLTarget, mbind, M_bind, assign, mret, M_ret,
    dataset_rhahOrderableListId, getBoundingClientRect, pointer_on.
  cbn. eexists. repeat split.
Qed.

(** X1.  After a press on an element whose identifier is not empty,
    [dragDidStartAt] answers [false] for the pressed identifier at the
    point of the press, [true] for it at every point that differs in a
    coordinate, and [false] for every other identifier. *)
Theorem press_then_dragDidStartAt (el : HTMLElement) (id other : string)
    (x y qx qy : Q) (w : World) :
  Element.rhahOrderableListId (element_of w el) = Some id ->
  id <> "" ->
  exists w',
    onMouseDown (pointer_on el x y) w = (Ret tt, w') /\
    dragDidStartAt id x y w' = (Ret false, w') /\
    (~ ((qx == x)%Q /\ (qy == y)%Q) -> dragDidStartAt id qx qy w' = (Ret true, w')) /\
    (other <> id -> dragDidStartAt other qx qy w' = (Ret false, w')).
Proof.
  intros Hid Hne.
  destruct (onMouseDown_runs el x y w) as (w' & Hrun & Hsvc & _).
  exists w'. split; [exact Hrun |].
  assert (downAt (svc w') = Some (Point.mk x y)) as Hat by (rewrite Hsvc; reflexivity).
  assert (downId (svc w') = Some id) as Hdown by (rewrite Hsvc; exact Hid).
  assert (truthy_string (Some id) = true) as Htruthy.
  { cbn. destruct (String.eqb_spec id ""); [congruence | reflexivity]. }
  unfold dragDidStartAt, mbind, M_bind, this, mret, M_ret.
  rewrite Hat, Hdown, Htruthy. cbn [negb Point.x Point.y].
  repeat split.
  - rewrite bool_decide_eq_true_2 by reflexivity. cbn [negb].
    rewrite (proj2 (Qeqb_eq x x)) by reflexivity.
    rewrite (proj2 (Qeqb_eq y y)) by reflexivity. reflexivity.
  - intros Hq. rewrite bool_decide_eq_true_2 by reflexivity. cbn [negb].
    destruct (Qeqb qx x && Qeqb qy y) eqn:E; [| reflexivity].
    apply andb_true_iff in E as [Ex Ey].
    apply Qeqb_eq in Ex. apply Qeqb_eq in Ey. tauto.
  - intros Hother. rewrite bool_decide_eq_false_2 by congruence. reflexivity.
Qed.

Lemma press_then_dragDidStartAt_witness :
  exists w',
    onMouseDown (pointer_on 1%nat 5 5) (world_ABC default_options) = (Ret tt, w') /\
    dragDidStartAt "A" 5 5 w' = (Ret false, w') /\
    dragDidStartAt "A" 5 6 w' = (Ret true, w') /\
    dragDidStartAt "B" 5 6 w' = (Ret false, w').
Proof.
  destruct (press_then_dragDidStartAt 1%nat "A" "B" 5 5 5 6 (world_ABC default_options))
    as (w' & Hrun & Hsame & Hmoved & Hother); [by_computation | discriminate |].
  exists w'. repeat split; try assumption.
  - apply Hmoved. intros [_ H]. vm_compute in H. discriminate H.
  - apply Hother. discriminate.
Defined.

(** ** The start of tracking *)

Lemma added_listener_registered (r : EventType * Listener) (ls : list (EventType * Listener)) :
  r ∈ (if bool_decide (r ∈ ls) then ls else ls ++ [r]).
Proof.
  destruct (bool_decide (r ∈ ls)) eqn:E.
  - apply bool_decide_eq_true in E. exact E.
  - apply elem_of_app. right. apply list_elem_of_singleton. reflexivity.
Qed.

Lemma added_listener_stays (r r' : EventType * Listener) (ls : list (EventType * Listener)) :
  r ∈ ls -> r ∈ (if bool_decide (r' ∈ ls) then ls else ls ++ [r']).
Proof.
  intros H. destruct (bool_decide (r' ∈ ls)); [exact H |].
  apply elem_of_app. left. exact H.
Qed.

(** What a successful start of tracking leaves behind. *)
Lemma startTracking_runs (id : string) (event : PointerEvent) (onDragTo : Callback)
    (w : World) (at_ last : Point.t) (el : HTMLElement) (rect : DOMRect.t) :
  handleMove (svc w) = None -> handleUp (svc w) = None ->
  downAt (svc w) = Some at_ -> downElement (svc w) = Some el ->
  downRect (svc w) = Some rect -> lastPoint (svc w) = Some last ->
  exists w',
    startTracking id event onDragTo w = (Ret tt, w') /\
    svc w'
    = with_handleUp (Some MouseUpHandler)
        (with_handleMove (Some (MouseMoveHandler onDragTo))
           (with_draggingId (Some id) (with_isDragging true (svc w)))) /\
    listeners w'
    = (let ls := if bool_decide ((mousemove, MouseMoveHandler onDragTo) ∈ listeners w)
                 then listeners w
                 else listeners w ++ [(mousemove, MouseMoveHandler onDragTo)] in
       if bool_decide ((mouseup, MouseUpHandler) ∈ ls) then ls
       else ls ++ [(mouseup, MouseUpHandler)]) /\
    dom w' = dom w.
Proof.
  intros Hm Hu Hat Hel Hrect Hlast.
  unfold startTracking. unfold mbind, M_bind, this.
  rewrite Hm, Hu. cbn.
  rewrite (assertDragging_ok _ _ at_ el rect last)
    by (cbn; first [assumption | reflexivity]).
  unfold window_addEventListener. cbn.
  eexists. repeat split.
Qed.

Lemma startTracking_twice (id : string) (event : PointerEvent) (onDragTo : Callback)
    (w : World) :
  is_Some (handleMove (svc w)) ->
  startTracking id event onDragTo w = (Throw HandlersAlreadyExist, w).
Proof.
  intros H. unfold startTracking, mbind, M_bind, this.
  rewrite (bool_decide_eq_true_2 _ H). reflexivity.
Qed.

(** X2.  With no handlers installed and the state of a press present,
    [startTracking] returns: the engine is dragging the identifier, both
    handlers are set and registered on [window], the DOM is untouched, and
    a second start throws with nothing changed. *)
Theorem startTracking_installs (id id' : string) (event event' : PointerEvent)
    (onDragTo onDragTo' : Callback) (w : World)
    (at_ last : Point.t) (el : HTMLElement) (rect : DOMRect.t) :
  handleMove (svc w) = None -> handleUp (svc w) = None ->
  downAt (svc w) = Some at_ -> downElement (svc w) = Some el ->
  downRect (svc w) = Some rect -> lastPoint (svc w) = Some last ->
  exists w',
    startTracking id event onDragTo w = (Ret tt, w') /\
    isDragging (svc w') = true /\ draggingId (svc w') = Some id /\
    handleMove (svc w') = Some (MouseMoveHandler onDragTo) /\
    handleUp (svc w') = Some MouseUpHandler /\
    ((mousemove, MouseMoveHandler onDragTo) ∈ listeners w') /\
    ((mouseup, MouseUpHandler) ∈ listeners w') /\
    dom w' = dom w /\
    startTracking id' event' onDragTo' w' = (Throw HandlersAlreadyExist, w').
Proof.
  intros Hm Hu Hat Hel Hrect Hlast.
  destruct (startTracking_runs id event onDragTo w at_ last el rect
              Hm Hu Hat Hel Hrect Hlast) as (w' & Hrun & Hsvc & Hls & Hdom).
  exists w'. split; [exact Hrun |].
  rewrite Hsvc. do 4 (split; [reflexivity |]).
  split; [rewrite Hls; apply added_listener_stays, added_listener_registered |].
  split; [rewrite Hls; apply added_listener_registered |].
  split; [exact Hdom |].
  apply startTracking_twice. rewrite Hsvc. eexists. reflexivity.
Qed.

Lemma startTracking_installs_witness :
  exists w',
    startTracking "A" (pointer 5 6) hookOnDragTo world_pressed_A = (Ret tt, w') /\
    listeners w' = [(mousemove, MouseMoveHandler hookOnDragTo); (mouseup, MouseUpHandler)] /\
    isDragging (svc w') = true.
Proof.
  destruct (startTracking_installs "A" "A" (pointer 5 6) (pointer 5 6)
              hookOnDragTo hookOnDragTo world_pressed_A
              (Point.mk 5 5) (Point.mk 5 5) 1%nat (rowAt 0))
    as (w' & Hrun & _); try reflexivity.
  exists w'. split; [exact Hrun |].
  assert (Hw : w' = snd (startTracking "A" (pointer 5 6) hookOnDragTo world_pressed_A))
    by (rewrite Hrun; reflexivity).
  rewrite Hw. split; vm_compute; reflexivity.
Defined.

(** ** Failures of the handlers *)

Lemma assertDragging_not_dragging (functionName : string) (w : World) :
  isDragging (svc w) = false ->
  assertDragging functionName w = (Throw (NotInDraggingState functionName), w).
Proof.
  intros H. unfold assertDragging, mbind, M_bind, this. rewrite H.
  destruct (downAt (svc w)), (downElement (svc w)), (downRect (svc w)),
    (lastPoint (svc w)); reflexivity.
Qed.

(** X3.  Outside the dragging state (the down point, the down element, the
    down rectangle or the last point is missing, or [isDragging] is off)
    the move handler and [getDragElementPosition] throw, each under its own
    name, and leave the world as it was. *)
Theorem move_needs_dragging_state (onDragTo : Callback) (event : PointerEvent) (w : World) :
  downAt (svc w) = None \/ downElement (svc w) = None \/ downRect (svc w) = None \/
  lastPoint (svc w) = None \/ isDragging (svc w) = false ->
  handleMouseMove onDragTo event w
  = (Throw (NotInDraggingState "getMouseMoveHandler"), w) /\
  getDragElementPosition event w
  = (Throw (NotInDraggingState "getDragElementPosition"), w).
Proof.
  intros H.
  assert (forall name, assertDragging name w = (Throw (NotInDraggingState name), w)) as E.
  { intros name. destruct H as [H | [H | [H | [H | H]]]];
      [apply assertDragging_throws; auto .. | apply assertDragging_not_dragging; exact H]. }
  unfold handleMouseMove, getDragElementPosition, mbind, M_bind.
  rewrite !E. split; reflexivity.
Qed.

Lemma move_needs_dragging_state_witness :
  handleMouseMove hookOnDragTo (pointer 5 17) world_pressed_A
  = (Throw (NotInDraggingState "getMouseMoveHandler"), world_pressed_A).
Proof.
  apply (move_needs_dragging_state hookOnDragTo (pointer 5 17) world_pressed_A).
  do 4 right. reflexivity.
Defined.

(** X4.  The release handler returns exactly when its preconditions hold.
    When one is missing it throws the error of the first missing one, in
    the order handler for moves, handler for the release, down element,
    dragging identifier, placeholder indexes, and leaves the world as it
    was: no listener is removed, no style cleared, no field reset and
    nothing committed. *)
Theorem release_is_all_or_nothing (w : World) :
  (release_ready (svc w) -> exists w', handleUp_body w = (Ret tt, w')) /\
  (~ release_ready (svc w) ->
   exists e,
     handleUp_body w = (Throw e, w) /\
     (handleMove (svc w) = None -> e = HandleMoveMissing) /\
     (is_Some (handleMove (svc w)) -> handleUp (svc w) = None -> e = HandleUpMissing) /\
     (is_Some (handleMove (svc w)) -> is_Some (handleUp (svc w)) ->
      downElement (svc w) = None -> e = DownElementUndefined) /\
     (is_Some (handleMove (svc w)) -> is_Some (handleUp (svc w)) ->
      is_Some (downElement (svc w)) -> truthy_string (draggingId (svc w)) = false ->
      e = DraggingIdUndefined) /\
     (is_Some (handleMove (svc w)) -> is_Some (handleUp (svc w)) ->
      is_Some (downElement (svc w)) -> truthy_string (draggingId (svc w)) = true ->
      e = PlaceholderIndexUndefined)).
Proof.
  split.
  - intros Hready.
    destruct (release_ready_inv _ Hready)
      as (move & up_ & el & droppedId & i & j & Hm & Hu & He & Hd & Hne & Hi & Hj).
    destruct (handleUp_body_runs w move up_ el droppedId i j Hm Hu He Hd Hne Hi Hj)
      as (w' & Hrun & _).
    exists w'. exact Hrun.
  - intros Hnot. unfold handleUp_body, mbind, M_bind, this.
    destruct (handleMove (svc w)) as [move |] eqn:Hm;
      [| eexists; split; [reflexivity |]; repeat split; intros; which_error].
    destruct (handleUp (svc w)) as [up_ |] eqn:Hu;
      [| eexists; split; [reflexivity |]; repeat split; intros; which_error].
    destruct (downElement (svc w)) as [el |] eqn:He;
      [| eexists; split; [reflexivity |]; repeat split; intros; which_error].
    destruct (truthy_string (draggingId (svc w))) eqn:Ht; cbn;
      [| eexists; split; [reflexivity |]; repeat split; intros; which_error].
    destruct (draggingId (svc w)) as [droppedId |] eqn:Hd; [| discriminate].
    destruct (placeholderItemIndex (svc w)) as [i |] eqn:Hi;
      [| eexists; split; [reflexivity |]; repeat split; intros; which_error].
    destruct (placeholderElementIndex (svc w)) as [j |] eqn:Hj;
      [| eexists; split; [reflexivity |]; repeat split; intros; which_error].
    exfalso. apply Hnot. unfold release_ready.
    rewrite Hm, Hu, He, Hd, Hi, Hj. repeat split; try (eexists; reflexivity). exact Ht.
Qed.

Lemma release_is_all_or_nothing_witness :
  handleUp_body world_tracking_A = (Throw PlaceholderIndexUndefined, world_tracking_A) /\
  exists w', handleUp_body world_A_past_B = (Ret tt, w').
Proof.
  destruct (release_is_all_or_nothing world_tracking_A) as [_ Hfail].
  destruct (release_is_all_or_nothing world_A_past_B) as [Hok _].
  split.
  - destruct Hfail as (e & Hrun & _ & _ & _ & _ & He).
    + intros (_ & _ & _ & _ & [i Hi] & _). discriminate Hi.
    + rewrite Hrun. rewrite He; [reflexivity | | | |];
        try (eexists; reflexivity); reflexivity.
  - apply Hok. ready.
Defined.

(** ** After a release, after a teardown *)

Lemma window_dispatch_nobody (t : EventType) (event : PointerEvent) (w : World) :
  listeners w = [] -> window_dispatch t event w = (Ret tt, w).
Proof. intros H. unfold window_dispatch. rewrite H. reflexivity. Qed.

(** X5.  When the two listeners of the drag are the only ones on [window],
    a release leaves none: no event is delivered to the engine any more, a
    move handler called late throws, and the engine is ready for the next
    drag, a press followed by [startTracking] returns. *)
Theorem release_frees_the_engine (w : World) (move up_ : Listener) :
  release_ready (svc w) ->
  handleMove (svc w) = Some move -> handleUp (svc w) = Some up_ ->
  listeners w = [(mousemove, move); (mouseup, up_)] ->
  exists w',
    handleUp_body w = (Ret tt, w') /\
    listeners w' = [] /\
    (forall t event, window_dispatch t event w' = (Ret tt, w')) /\
    (forall onDragTo event,
       handleMouseMove onDragTo event w'
       = (Throw (NotInDraggingState "getMouseMoveHandler"), w')) /\
    (forall el x y id event onDragTo,
       exists w'',
         (onMouseDown (pointer_on el x y);; startTracking id event onDragTo) w'
         = (Ret tt, w'')).
Proof.
  intros Hready Hm Hu Hls.
  destruct (release_ready_inv _ Hready)
    as (move' & up' & el & droppedId & i & j & Hm' & Hu' & He & Hd & Hne & Hi & Hj).
  assert (move' = move) by congruence. assert (up' = up_) by congruence. subst move' up'.
  destruct (handleUp_body_runs w move up_ el droppedId i j Hm Hu He Hd Hne Hi Hj)
    as (w' & Hrun & _ & Hls' & _ & Hsvc).
  assert (listeners w' = []) as Hnone.
  { rewrite Hls', Hls. cbn.
    rewrite (bool_decide_eq_true_2 ((mousemove, move) = (mousemove, move))) by reflexivity.
    cbn. rewrite (bool_decide_eq_false_2 ((mouseup, up_) = (mousemove, move)))
      by discriminate.
    cbn. rewrite (bool_decide_eq_true_2 ((mouseup, up_) = (mouseup, up_))) by reflexivity.
    reflexivity. }
  exists w'. split; [exact Hrun |]. split; [exact Hnone |].
  split; [intros; apply window_dispatch_nobody; exact Hnone |].
  split.
  { intros onDragTo event.
    unfold handleMouseMove, mbind, M_bind.
    rewrite assertDragging_not_dragging by (rewrite Hsvc; reflexivity). reflexivity. }
  intros el' x y id event onDragTo.
  destruct (onMouseDown_runs el' x y w') as (w1 & Hpress & Hsvc1 & _).
  destruct (startTracking_runs id event onDragTo w1 (Point.mk x y) (Point.mk x y) el'
              (Element.boundingClientRect (element_of w' el')))
    as (w2 & Hstart & _); try (rewrite Hsvc1, Hsvc; reflexivity).
  exists w2. unfold mbind, M_bind. rewrite Hpress. exact Hstart.
Qed.

Lemma release_frees_the_engine_witness :
  exists w',
    handleUp_body world_A_past_B = (Ret tt, w') /\
    listeners w' = [] /\
    window_dispatch mousemove (pointer 5 30) w' = (Ret tt, w').
Proof.
  destruct (release_frees_the_engine world_A_past_B
              (MouseMoveHandler hookOnDragTo) MouseUpHandler)
    as (w' & Hrun & Hnone & Hdispatch & _); [ready | reflexivity ..|].
  exists w'. repeat split; [exact Hrun | exact Hnone | apply Hdispatch].
Defined.

Lemma destroy_runs (w : World) (move up_ : Listener) :
  handleMove (svc w) = Some move -> handleUp (svc w) = Some up_ ->
  exists w',
    destroy w = (Ret tt, w') /\ svc w' = svc w /\ dom w' = dom w /\
    listeners w'
    = List.filter (fun r => negb (bool_decide (r = (mouseup, up_))))
        (List.filter (fun r => negb (bool_decide (r = (mousemove, move)))) (listeners w)).
Proof.
  intros Hm Hu. unfold destroy, mbind, M_bind, this, window_removeEventListener.
  rewrite Hm. cbn. rewrite Hu. eexists. repeat split.
Qed.

Lemma filter_out_idemp {A : Type} `{EqDecision A} (a : A) (l : list A) :
  a ∉ l -> List.filter (fun r => negb (bool_decide (r = a))) l = l.
Proof.
  induction l as [| b l IH]; intros H; cbn; [reflexivity |].
  apply not_elem_of_cons in H as [Hne Hl].
  rewrite bool_decide_eq_false_2 by congruence. cbn. f_equal. auto.
Qed.

(** X6.  [destroy] removes the two listeners of a drag from [window] and
    changes nothing of the engine: the handlers stay set.  Hence a second
    [destroy] removes nothing more, and [startTracking] on a destroyed
    engine throws, as for a double start.  With no handlers [destroy] does
    nothing at all. *)
Theorem destroy_detaches (w : World) :
  (forall move up_,
     handleMove (svc w) = Some move -> handleUp (svc w) = Some up_ ->
     exists w',
       destroy w = (Ret tt, w') /\ svc w' = svc w /\ dom w' = dom w /\
       ((mousemove, move) ∉ listeners w') /\ ((mouseup, up_) ∉ listeners w') /\
       (forall r, r ∈ listeners w' -> r ∈ listeners w) /\
       (exists w'', destroy w' = (Ret tt, w'') /\ svc w'' = svc w' /\
                    listeners w'' = listeners w') /\
       (forall id event onDragTo,
          startTracking id event onDragTo w' = (Throw HandlersAlreadyExist, w'))) /\
  (handleMove (svc w) = None -> handleUp (svc w) = None -> destroy w = (Ret tt, w)).
Proof.
  split.
  - intros move up_ Hm Hu.
    destruct (destroy_runs w move up_ Hm Hu) as (w' & Hrun & Hsvc & Hdom & Hls).
    assert ((mouseup, up_) ∉ listeners w') as Hno_up
      by (rewrite Hls; apply not_elem_of_filter_out).
    assert ((mousemove, move) ∉ listeners w') as Hno_move.
    { rewrite Hls. intros H. apply list_elem_of_In, filter_In in H as [H _].
      apply list_elem_of_In in H. revert H. apply not_elem_of_filter_out. }
    exists w'. repeat (split; [assumption |]).
    split.
    { intros r. rewrite Hls. intros H.
      apply list_elem_of_In, filter_In in H as [H _].
      apply filter_In in H as [H _]. apply list_elem_of_In. exact H. }
    split.
    { destruct (destroy_runs w' move up_) as (w'' & Hrun' & Hsvc' & _ & Hls');
        [rewrite Hsvc; assumption .. |].
      exists w''. split; [exact Hrun' |]. split; [exact Hsvc' |].
      rewrite Hls'. rewrite (filter_out_idemp (mousemove, move)) by exact Hno_move.
      apply filter_out_idemp. exact Hno_up. }
    intros id event onDragTo. apply startTracking_twice.
    rewrite Hsvc, Hm. eexists. reflexivity.
  - intros Hm Hu. unfold destroy, mbind, M_bind, this. rewrite Hm. cbn. rewrite Hu.
    reflexivity.
Qed.

Lemma destroy_detaches_witness :
  exists w',
    destroy world_tracking_A = (Ret tt, w') /\
    listeners w' = [] /\
    handleMove (svc w') = Some (MouseMoveHandler hookOnDragTo) /\
    destroy (world_ABC default_options) = (Ret tt, world_ABC default_options).
Proof.
  destruct (destroy_detaches world_tracking_A) as [H _].
  destruct (H (MouseMoveHandler hookOnDragTo) MouseUpHandler)
    as (w' & Hrun & Hsvc & _); [reflexivity | reflexivity |].
  exists w'. split; [exact Hrun |].
  assert (Hw : w' = snd (destroy world_tracking_A)) by (rewrite Hrun; reflexivity).
  split; [rewrite Hw; vm_compute; reflexivity |].
  split; [rewrite Hsvc; reflexivity |].
  apply (destroy_detaches (world_ABC default_options)); reflexivity.
Defined.

(** ** Moves *)

(** A move handler that returns ran in the dragging state, and its loop
    ended with a pair. *)
Lemma handleMouseMove_ret_inv (onDragTo : Callback) (event : PointerEvent) (w w' : World)
    (o : Outcome unit) :
  handleMouseMove onDragTo event w = (o, w') ->
  (o = Throw (NotInDraggingState "getMouseMoveHandler") /\ w' = w) \/
  exists at_ el rect last,
    dragging_at (svc w) at_ last el rect /\
    let direction := directionOf (clientY event - Point.y last) (lastDirection (svc w)) in
    match fst (walk direction event w at_ rect (recorded direction event w)) with
    | Ret new => o = Ret tt
    | Throw e => o = Throw e /\ w' = recorded direction event w
    end.
Proof.
  intros Hrun.
  destruct (downAt (svc w)) as [at_ |] eqn:Hat.
  2:{ left. unfold handleMouseMove, mbind, M_bind in Hrun.
      rewrite assertDragging_throws in Hrun by auto.
      injection Hrun as <- <-. split; reflexivity. }
  destruct (downElement (svc w)) as [el |] eqn:Hel.
  2:{ left. unfold handleMouseMove, mbind, M_bind in Hrun.
      rewrite assertDragging_throws in Hrun by auto.
      injection Hrun as <- <-. split; reflexivity. }
  destruct (downRect (svc w)) as [rect |] eqn:Hrect.
  2:{ left. unfold handleMouseMove, mbind, M_bind in Hrun.
      rewrite assertDragging_throws in Hrun by auto.
      injection Hrun as <- <-. split; reflexivity. }
  destruct (lastPoint (svc w)) as [last |] eqn:Hlast.
  2:{ left. unfold handleMouseMove, mbind, M_bind in Hrun.
      rewrite assertDragging_throws in Hrun by auto.
      injection Hrun as <- <-. split; reflexivity. }
  destruct (isDragging (svc w)) eqn:Hdragging.
  2:{ left. unfold handleMouseMove, mbind, M_bind in Hrun.
      rewrite assertDragging_not_dragging in Hrun by assumption.
      injection Hrun as <- <-. split; reflexivity. }
  right. exists at_, el, rect, last. split; [repeat split; assumption |].
  cbv zeta.
  destruct (fst (walk _ event w at_ rect _)) as [new | e] eqn:Hwalk.
  - destruct (handleMouseMove_returns onDragTo event w at_ el rect last
                Hat Hel Hrect Hdragging Hlast new Hwalk) as (w1 & Hrun1 & _).
    congruence.
  - rewrite (handleMouseMove_throws onDragTo event w at_ el rect last
               Hat Hel Hrect Hdragging Hlast e Hwalk) in Hrun.
    injection Hrun as <- <-. split; reflexivity.
Qed.

(** The effects of a move handler that returns, in order. *)
Lemma handleMouseMove_effects (onDragTo : Callback) (event : PointerEvent) (w : World)
    (at_ last : Point.t) (el : HTMLElement) (rect : DOMRect.t) (new : Z * Z) :
  dragging_at (svc w) at_ last el rect ->
  let direction := directionOf (clientY event - Point.y last) (lastDirection (svc w)) in
  fst (walk direction event w at_ rect (recorded direction event w)) = Ret new ->
  trace (snd (handleMouseMove onDragTo event w))
  = trace w
    ++ [Assign F_lastDirection; Assign F_lastPoint;
        SetStyle el sp_position css_absolute;
        SetStyle el sp_top (css_px (DOMRect.top rect + clientY event - Point.y at_));
        SetStyle el sp_left (css_px (DOMRect.left rect + clientX event - Point.x at_))]
    ++ (if number_neq (placeholderItemIndex (svc w)) (fst new)
        then [Assign F_placeholderItemIndex; Assign F_placeholderElementIndex;
              Call_onDragTo onDragTo (fst new)]
        else []).
Proof.
  intros (Hat & Hel & Hrect & Hdragging & Hlast) direction Hwalk.
  pose proof (walk_frame direction event w at_ rect (recorded direction event w)) as Hf.
  destruct (walk direction event w at_ rect (recorded direction event w))
    as [o w3] eqn:E. cbn in Hwalk, Hf. subst o w3.
  unfold handleMouseMove, mbind, M_bind.
  rewrite (assertDragging_ok _ w at_ el rect last Hat Hel Hrect Hdragging Hlast).
  unfold this, assign. cbn. fold direction.
  unfold getDragElementPosition, mbind, M_bind.
  fold (recorded direction event w).
  rewrite (assertDragging_ok _ (recorded direction event w) at_ el rect
             (Point.mk (clientY event) (clientY event)))
    by (cbn; first [assumption | reflexivity]).
  unfold mret, M_ret. cbn.
  unfold walk in E. cbn in E.
  destruct direction; cbn; rewrite E; cbn;
    destruct (number_neq (placeholderItemIndex (svc w)) (fst new)); cbn;
    repeat rewrite <- app_assoc; reflexivity.
Qed.

(** X7.  A move handler that returns has recorded an item index, and it
    has called [onDragTo] at most once: with that index when it differs
    from the one recorded before (or none was recorded), and not at all
    when it is the same; in that case the placeholder element index is as
    it was, too.  It never calls [onDragEnd]. *)
Theorem move_reports_changes_only (onDragTo : Callback) (event : PointerEvent)
    (w w' : World) :
  handleMouseMove onDragTo event w = (Ret tt, w') ->
  exists i,
    placeholderItemIndex (svc w') = Some i /\
    dragTo_calls (trace w')
    = dragTo_calls (trace w)
      ++ (if number_neq (placeholderItemIndex (svc w)) i then [i] else []) /\
    dragEnd_calls (trace w') = dragEnd_calls (trace w) /\
    (placeholderItemIndex (svc w) = Some i ->
     placeholderElementIndex (svc w') = placeholderElementIndex (svc w)).
Proof.
  intros Hrun.
  destruct (handleMouseMove_ret_inv _ _ _ _ _ Hrun)
    as [[H _] | (at_ & el & rect & last & Hdr & Hwalk)]; [discriminate |].
  cbv zeta in Hwalk.
  destruct (fst (walk _ event w at_ rect _)) as [new | e] eqn:E;
    [| destruct Hwalk; discriminate].
  pose proof (handleMouseMove_effects onDragTo event w at_ last el rect new Hdr E) as Htr.
  destruct Hdr as (Hat & Hel & Hrect & Hdragging & Hlast).
  destruct (handleMouseMove_returns onDragTo event w at_ el rect last
              Hat Hel Hrect Hdragging Hlast new E)
    as (w1 & Hrun1 & _ & _ & Hitem & Hcalls & Hsvc & _).
  assert (w1 = w') by congruence. subst w1.
  rewrite Hrun in Htr. cbn [snd] in Htr.
  exists (fst new). split; [exact Hitem |]. split; [exact Hcalls |].
  split.
  - rewrite Htr. unfold dragEnd_calls. rewrite !omap_app.
    destruct (number_neq _ _); cbn; rewrite ?app_nil_r; reflexivity.
  - intros Hsame. rewrite Hsvc, Hsame. cbn. rewrite Z.eqb_refl. reflexivity.
Qed.

Lemma move_reports_changes_only_witness :
  exists w1 w2,
    handleMouseMove hookOnDragTo (pointer 5 17) world_tracking_A = (Ret tt, w1) /\
    dragTo_calls (trace w1) = [2] /\
    handleMouseMove hookOnDragTo (pointer 5 18) w1 = (Ret tt, w2) /\
    dragTo_calls (trace w2) = [2].
Proof.
  destruct (handleMouseMove hookOnDragTo (pointer 5 17) world_tracking_A)
    as [o1 w1] eqn:E1.
  assert (o1 = Ret tt /\ placeholderItemIndex (svc w1) = Some 2) as [-> Hp1].
  { replace o1 with (fst (handleMouseMove hookOnDragTo (pointer 5 17) world_tracking_A))
      by (rewrite E1; reflexivity).
    replace w1 with (snd (handleMouseMove hookOnDragTo (pointer 5 17) world_tracking_A))
      by (rewrite E1; reflexivity).
    split; vm_compute; reflexivity. }
  destruct (handleMouseMove hookOnDragTo (pointer 5 18) w1) as [o2 w2] eqn:E2.
  assert (o2 = Ret tt /\ placeholderItemIndex (svc w2) = Some 2) as [-> Hp2].
  { replace o2 with (fst (handleMouseMove hookOnDragTo (pointer 5 18) w1))
      by (rewrite E2; reflexivity).
    replace w2 with (snd (handleMouseMove hookOnDragTo (pointer 5 18) w1))
      by (rewrite E2; reflexivity).
    replace w1 with (snd (handleMouseMove hookOnDragTo (pointer 5 17) world_tracking_A))
      by (rewrite E1; reflexivity).
    split; vm_compute; reflexivity. }
  destruct (move_reports_changes_only _ _ _ _ E1) as (i1 & Hi1 & Hc1 & _).
  destruct (move_reports_changes_only _ _ _ _ E2) as (i2 & Hi2 & Hc2 & _).
  assert (i1 = 2) by congruence. assert (i2 = 2) by congruence. subst i1 i2.
  exists w1, w2. repeat split.
  - rewrite Hc1. reflexivity.
  - exact E2.
  - rewrite Hc2, Hp1, Hc1. reflexivity.
Defined.

(** The DOM after a move handler that returns. *)
Lemma handleMouseMove_dom (onDragTo : Callback) (event : PointerEvent) (w : World)
    (at_ last : Point.t) (el : HTMLElement) (rect : DOMRect.t) (new : Z * Z) :
  dragging_at (svc w) at_ last el rect ->
  let direction := directionOf (clientY event - Point.y last) (lastDirection (svc w)) in
  fst (walk direction event w at_ rect (recorded direction event w)) = Ret new ->
  dom (snd (handleMouseMove onDragTo event w))
  = <[el := Element.mk (Element.rhahOrderableListId (element_of w el))
                       (Element.boundingClientRect (element_of w el))
                       (Style.mk css_absolute
                          (css_px (DOMRect.top rect + clientY event - Point.y at_))
                          (css_px (DOMRect.left rect + clientX event - Point.x at_)))]>
      (dom w).
Proof.
  intros (Hat & Hel & Hrect & Hdragging & Hlast) direction Hwalk.
  pose proof (walk_frame direction event w at_ rect (recorded direction event w)) as Hf.
  destruct (walk direction event w at_ rect (recorded direction event w))
    as [o w3] eqn:E. cbn in Hwalk, Hf. subst o w3.
  unfold handleMouseMove, mbind, M_bind.
  rewrite (assertDragging_ok _ w at_ el rect last Hat Hel Hrect Hdragging Hlast).
  unfold this, assign. cbn. fold direction.
  unfold getDragElementPosition, mbind, M_bind.
  fold (recorded direction event w).
  rewrite (assertDragging_ok _ (recorded direction event w) at_ el rect
             (Point.mk (clientY event) (clientY event)))
    by (cbn; first [assumption | reflexivity]).
  unfold mret, M_ret. cbn.
  unfold walk in E. cbn in E.
  destruct direction; cbn; rewrite E; cbn;
    destruct (number_neq (placeholderItemIndex (svc w)) (fst new)); cbn;
    unfold element_of; cbn; rewrite !lookup_insert_eq; cbn;
    rewrite !insert_insert_eq; reflexivity.
Qed.

(** X8.  A move handler that returns puts the dragged element at the
    place of its down rectangle moved by the way of the pointer since the
    press, absolutely positioned.  It changes no other element, no
    listener, and of the engine nothing but the last point, the last
    direction and the placeholder indexes. *)
Theorem move_positions_the_dragged_element (onDragTo : Callback) (event : PointerEvent)
    (w w' : World) (at_ last : Point.t) (el : HTMLElement) (rect : DOMRect.t) :
  dragging_at (svc w) at_ last el rect ->
  handleMouseMove onDragTo event w = (Ret tt, w') ->
  Element.style (element_of w' el)
  = Style.mk css_absolute
      (css_px (DOMRect.top rect + clientY event - Point.y at_))
      (css_px (DOMRect.left rect + clientX event - Point.x at_)) /\
  Element.boundingClientRect (element_of w' el)
  = Element.boundingClientRect (element_of w el) /\
  (forall other, other <> el -> dom w' !! other = dom w !! other) /\
  listeners w' = listeners w /\
  downId (svc w') = downId (svc w) /\ downAt (svc w') = downAt (svc w) /\
  downElement (svc w') = downElement (svc w) /\ downRect (svc w') = downRect (svc w) /\
  isDragging (svc w') = isDragging (svc w) /\ draggingId (svc w') = draggingId (svc w) /\
  handleMove (svc w') = handleMove (svc w) /\ handleUp (svc w') = handleUp (svc w) /\
  elements (svc w') = elements (svc w) /\
  maxElementIndex (svc w') = maxElementIndex (svc w) /\
  orderedElementIds (svc w') = orderedElementIds (svc w).
Proof.
  intros Hdr Hrun.
  set (direction := directionOf (clientY event - Point.y last) (lastDirection (svc w))).
  destruct (fst (walk direction event w at_ rect (recorded direction event w)))
    as [new | e] eqn:E.
  2:{ destruct Hdr as (Hat & Hel & Hrect & Hdragging & Hlast).
      rewrite (handleMouseMove_throws onDragTo event w at_ el rect last
                 Hat Hel Hrect Hdragging Hlast e E) in Hrun. discriminate Hrun. }
  pose proof (handleMouseMove_dom onDragTo event w at_ last el rect new Hdr E) as Hdom.
  rewrite Hrun in Hdom. cbn [snd] in Hdom.
  destruct Hdr as (Hat & Hel & Hrect & Hdragging & Hlast).
  destruct (handleMouseMove_returns onDragTo event w at_ el rect last
              Hat Hel Hrect Hdragging Hlast new E)
    as (w1 & Hrun1 & _ & _ & _ & _ & Hsvc & Hls & _).
  assert (w1 = w') by congruence. subst w1.
  split; [unfold element_of; rewrite Hdom, lookup_insert_eq; reflexivity |].
  split; [unfold element_of at 1; rewrite Hdom, lookup_insert_eq; reflexivity |].
  split; [intros other Hne; rewrite Hdom; apply lookup_insert_ne; congruence |].
  split; [exact Hls |].
  rewrite Hsvc. destruct (number_neq _ _); repeat split.
Qed.

Lemma move_positions_the_dragged_element_witness :
  exists w',
    handleMouseMove hookOnDragTo (pointer 9 17) world_tracking_A = (Ret tt, w') /\
    Element.style (element_of w' 1%nat)
    = Style.mk css_absolute (css_px (0 + 17 - 5)) (css_px (0 + 9 - 5)) /\
    dom w' !! 2%nat = dom world_tracking_A !! 2%nat.
Proof.
  destruct (handleMouseMove hookOnDragTo (pointer 9 17) world_tracking_A)
    as [o w'] eqn:Hrun.
  assert (o = Ret tt) as ->.
  { replace o with (fst (handleMouseMove hookOnDragTo (pointer 9 17) world_tracking_A))
      by (rewrite Hrun; reflexivity).
    vm_compute. reflexivity. }
  destruct (move_positions_the_dragged_element hookOnDragTo (pointer 9 17)
              world_tracking_A w' (Point.mk 5 5) (Point.mk 5 5) 1%nat (rowAt 0))
    as (Hstyle & _ & Hother & _); [repeat split | exact Hrun |].
  exists w'. split; [reflexivity |]. split; [exact Hstyle |].
  apply Hother. discriminate.
Defined.

Lemma walkDown_diag (service : DragService) (dx dy : Q) (downRect : DOMRect.t)
    (indexes : list Z) (itemIndex : Z) (new r : Z * Z) (w : World) :
  fst new = snd new ->
  fst (walkDown service dx dy downRect indexes itemIndex new w) = Ret r ->
  fst r = snd r.
Proof.
  revert itemIndex new. induction indexes as [| elementIndex rest IH]; intros itemIndex new Hnew.
  - cbn. intros H. injection H as <-. exact Hnew.
  - cbn. unfold mbind, M_bind.
    pose proof (getRect_frame (elements service !! elementIndex) w) as Hf.
    destruct (getRect (elements service !! elementIndex) w) as [[rect | e] w1];
      cbn in Hf; subst w1; [| discriminate].
    destruct ((elementIndex =? maxElementIndex service) && isBelow dx dy downRect rect).
    { cbn. intros H. injection H as <-. reflexivity. }
    destruct (intrudesDown dy downRect rect).
    + intros H. eapply IH; [| exact H]. reflexivity.
    + cbn. intros H. injection H as <-. exact Hnew.
Qed.

Lemma walkUp_diag (service : DragService) (dx dy : Q) (downRect : DOMRect.t)
    (indexes : list Z) (new r : Z * Z) (w : World) :
  fst new = snd new ->
  fst (walkUp service dx dy downRect indexes new w) = Ret r ->
  fst r = snd r.
Proof.
  revert new. induction indexes as [| elementIndex rest IH]; intros new Hnew.
  - cbn. intros H. injection H as <-. exact Hnew.
  - cbn. unfold mbind, M_bind.
    pose proof (getRect_frame (elements service !! elementIndex) w) as Hf.
    destruct (getRect (elements service !! elementIndex) w) as [[rect | e] w1];
      cbn in Hf; subst w1; [| discriminate].
    pose proof (isLastPossibleElement_frame service elementIndex w) as Hl.
    destruct (isLastPossibleElement service elementIndex w) as [[last | e] w2];
      cbn in Hl; subst w2; [| discriminate].
    destruct (last && isAbove dx dy downRect rect).
    { cbn. intros H. injection H as <-. reflexivity. }
    destruct (intrudesUp dy downRect rect).
    + intros H. eapply IH; [| exact H]. reflexivity.
    + cbn. intros H. injection H as <-. exact Hnew.
Qed.

(** X9.  The two placeholder indexes move together: when they are equal
    (or both missing) before a move event, they are equal after it, whether
    the handler returns or throws.  The loops assign one number to both,
    and both candidates start from the same fallback. *)
Theorem placeholder_indexes_stay_equal (onDragTo : Callback) (event : PointerEvent)
    (w : World) :
  placeholderItemIndex (svc w) = placeholderElementIndex (svc w) ->
  let w' := snd (handleMouseMove onDragTo event w) in
  placeholderItemIndex (svc w') = placeholderElementIndex (svc w').
Proof.
  intros Heq. cbv zeta.
  destruct (handleMouseMove onDragTo event w) as [o w'] eqn:Hrun. cbn [snd].
  destruct (handleMouseMove_ret_inv _ _ _ _ _ Hrun)
    as [[_ ->] | (at_ & el & rect & last & Hdr & Hwalk)]; [exact Heq |].
  cbv zeta in Hwalk.
  destruct (fst (walk _ event w at_ rect _)) as [new | e] eqn:E.
  - assert (fst new = snd new) as Hdiag.
    { unfold walk in E. cbv zeta in E.
      destruct (directionOf _ _);
        [eapply walkUp_diag | eapply walkDown_diag]; try exact E;
        cbn; rewrite Heq; reflexivity. }
    destruct Hdr as (Hat & Hel & Hrect & Hdragging & Hlast).
    destruct (handleMouseMove_returns onDragTo event w at_ el rect last
                Hat Hel Hrect Hdragging Hlast new E)
      as (w1 & Hrun1 & _ & _ & _ & _ & Hsvc & _).
    assert (w1 = w') by congruence. subst w1. rewrite Hsvc.
    destruct (number_neq _ _); cbn; [rewrite Hdiag; reflexivity | exact Heq].
  - destruct Hwalk as [_ ->]. exact Heq.
Qed.

Lemma placeholder_indexes_stay_equal_witness :
  let w' := snd (handleMouseMove hookOnDragTo (pointer 5 17) world_tracking_A) in
  placeholderItemIndex (svc w') = Some 2 /\ placeholderElementIndex (svc w') = Some 2.
Proof.
  cbv zeta.
  pose proof (placeholder_indexes_stay_equal hookOnDragTo (pointer 5 17) world_tracking_A
                eq_refl) as H.
  cbv zeta in H.
  assert (placeholderItemIndex
            (svc (snd (handleMouseMove hookOnDragTo (pointer 5 17) world_tracking_A)))
          = Some 2) as Hi by (vm_compute; reflexivity).
  split; [exact Hi |]. rewrite <- H. exact Hi.
Defined.

Lemma walkDown_errors (service : DragService) (dx dy : Q) (downRect : DOMRect.t)
    (indexes : list Z) (itemIndex : Z) (new : Z * Z) (w : World) (e : Error) :
  fst (walkDown service dx dy downRect indexes itemIndex new w) = Throw e ->
  e = TypeError "getBoundingClientRect" \/ e = VerySuspicious.
Proof.
  revert itemIndex new. induction indexes as [| elementIndex rest IH]; intros itemIndex new.
  - cbn. discriminate.
  - cbn. unfold mbind, M_bind.
    pose proof (getRect_frame (elements service !! elementIndex) w) as Hf.
    destruct (getRect (elements service !! elementIndex) w) as [[rect | e'] w1] eqn:Hr;
      cbn in Hf; subst w1.
    + destruct ((elementIndex =? maxElementIndex service) && isBelow dx dy downRect rect);
        [cbn; discriminate |].
      destruct (intrudesDown dy downRect rect); [apply IH | cbn; discriminate].
    + cbn. intros H. injection H as <-.
      unfold getRect, mbind, M_bind, getBoundingClientRect, process_env_test in Hr.
      destruct (elements service !! elementIndex) as [el |].
      * destruct (Qeqb _ 0 && node_env_test w); [| discriminate].
        injection Hr as <-. right. reflexivity.
      * injection Hr as <-. left. reflexivity.
Qed.

Lemma walkUp_errors (service : DragService) (dx dy : Q) (downRect : DOMRect.t)
    (indexes : list Z) (new : Z * Z) (w : World) (e : Error) :
  fst (walkUp service dx dy downRect indexes new w) = Throw e ->
  e = TypeError "getBoundingClientRect" \/ e = VerySuspicious \/ e = TypeError "dataset".
Proof.
  revert new. induction indexes as [| elementIndex rest IH]; intros new.
  - cbn. discriminate.
  - cbn. unfold mbind, M_bind.
    pose proof (getRect_frame (elements service !! elementIndex) w) as Hf.
    destruct (getRect (elements service !! elementIndex) w) as [[rect | e'] w1] eqn:Hr;
      cbn in Hf; subst w1.
    + pose proof (isLastPossibleElement_frame service elementIndex w) as Hl.
      destruct (isLastPossibleElement service elementIndex w) as [[last | e'] w1] eqn:Hlast;
        cbn in Hl; subst w1.
      * destruct (last && isAbove dx dy downRect rect); [cbn; discriminate |].
        destruct (intrudesUp dy downRect rect); [apply IH | cbn; discriminate].
      * cbn. intros H. injection H as <-.
        unfold isLastPossibleElement, mbind, M_bind, dataset_rhahOrderableListId in Hlast.
        destruct (elementIndex =? 1); [| discriminate].
        destruct (elements service !! 0); [discriminate |].
        injection Hlast as <-. auto.
    + cbn. intros H. injection H as <-.
      unfold getRect, mbind, M_bind, getBoundingClientRect, process_env_test in Hr.
      destruct (elements service !! elementIndex) as [el |].
      * destruct (Qeqb _ 0 && node_env_test w); [| discriminate].
        injection Hr as <-. auto.
      * injection Hr as <-. auto.
Qed.

(** X10.  A move handler that throws in the dragging state threw from its
    loop, over an element that is not registered or whose rectangle
    [getRect] rejects.  By then it has recorded the direction and the
    point and nothing else: the dragged element is not repositioned, the
    placeholder indexes are as they were and no callback was called. *)
Theorem move_that_throws_has_recorded (onDragTo : Callback) (event : PointerEvent)
    (w w' : World) (at_ last : Point.t) (el : HTMLElement) (rect : DOMRect.t) (e : Error) :
  dragging_at (svc w) at_ last el rect ->
  handleMouseMove onDragTo event w = (Throw e, w') ->
  (e = TypeError "getBoundingClientRect" \/ e = VerySuspicious \/ e = TypeError "dataset") /\
  w' = recorded (directionOf (clientY event - Point.y last) (lastDirection (svc w)))
                event w /\
  dom w' = dom w /\
  placeholderItemIndex (svc w') = placeholderItemIndex (svc w) /\
  placeholderElementIndex (svc w') = placeholderElementIndex (svc w) /\
  dragTo_calls (trace w') = dragTo_calls (trace w).
Proof.
  intros (Hat & Hel & Hrect & Hdragging & Hlast) Hrun.
  set (direction := directionOf (clientY event - Point.y last) (lastDirection (svc w))).
  destruct (fst (walk direction event w at_ rect (recorded direction event w)))
    as [new | e'] eqn:E.
  { destruct (handleMouseMove_returns onDragTo event w at_ el rect last
                Hat Hel Hrect Hdragging Hlast new E) as (w1 & Hrun1 & _).
    congruence. }
  rewrite (handleMouseMove_throws onDragTo event w at_ el rect last
             Hat Hel Hrect Hdragging Hlast e' E) in Hrun.
  injection Hrun as <- <-.
  split.
  { unfold walk in E. cbv zeta in E. destruct direction.
    - apply walkUp_errors in E. exact E.
    - apply walkDown_errors in E. tauto. }
  repeat split.
  unfold dragTo_calls. cbn. rewrite !omap_app. cbn. rewrite !app_nil_r. reflexivity.
Qed.

Lemma move_that_throws_has_recorded_witness :
  exists w',
    handleMouseMove hookOnDragTo (pointer 5 40) world_C_unregistered
    = (Throw (TypeError "getBoundingClientRect"), w') /\
    lastPoint (svc w') = Some (Point.mk 40 40) /\
    dom w' = dom world_C_unregistered /\
    placeholderItemIndex (svc w') = None.
Proof.
  destruct (handleMouseMove hookOnDragTo (pointer 5 40) world_C_unregistered)
    as [o w'] eqn:Hrun.
  assert (o = Throw (TypeError "getBoundingClientRect")) as ->.
  { replace o with (fst (handleMouseMove hookOnDragTo (pointer 5 40) world_C_unregistered))
      by (rewrite Hrun; reflexivity).
    vm_compute. reflexivity. }
  destruct (move_that_throws_has_recorded hookOnDragTo (pointer 5 40)
              world_C_unregistered w' (Point.mk 5 5) (Point.mk 5 5) 1%nat (rowAt 0)
              (TypeError "getBoundingClientRect"))
    as (_ & Hw & Hdom & Hi & _); [repeat split | exact Hrun |].
  exists w'. split; [reflexivity |].
  split; [rewrite Hw; reflexivity |]. split; [exact Hdom |].
  rewrite Hi. reflexivity.
Defined.

(** ** The loops *)

Lemma real_indexes_count (s : DragService) (m : Z) (n : nat) :
  Z.of_nat (length (real_indexes s (seqZ m (Z.of_nat n))))
  = Z.of_nat n
    - match placeholderElementIndex s with
      | Some p => if (m <=? p) && (p <? m + Z.of_nat n) then 1 else 0
      | None => 0
      end.
Proof.
  unfold real_indexes, number_neq.
  revert m. induction n as [| n IH]; intros m.
  - replace (seqZ m (Z.of_nat 0)) with (@nil Z) by reflexivity.
    cbn [List.filter length].
    destruct (placeholderElementIndex s) as [p |]; [| reflexivity].
    case_comparisons.
  - rewrite seqZ_cons by lia.
    replace (Z.pred (Z.of_nat (S n))) with (Z.of_nat n) by lia.
    cbn [List.filter]. specialize (IH (Z.succ m)).
    destruct (placeholderElementIndex s) as [p |].
    + destruct (Z.eqb_spec p m) as [-> | Hne]; cbn [negb length].
      * rewrite IH. case_comparisons.
      * rewrite Nat2Z.inj_succ, IH. case_comparisons.
    + cbn [length]. rewrite Nat2Z.inj_succ, IH. lia.
Qed.

Lemma items_before_spec (s : DragService) (k : Z) :
  0 <= k ->
  items_before s k
  = match placeholderElementIndex s with
    | Some p => if (0 <=? p) && (p <? k) then k - 1 else k
    | None => k
    end.
Proof.
  intros Hk. unfold items_before.
  rewrite <- (Z2Nat.id k) at 1 by exact Hk.
  rewrite real_indexes_count, Z2Nat.id by exact Hk.
  destruct (placeholderElementIndex s) as [p |]; [| lia].
  replace (0 + k) with k by lia.
  destruct ((0 <=? p) && (p <? k)); lia.
Qed.

(** The downward loop over a run of indexes it passes. *)
Lemma walkDown_passes (s : DragService) (dx dy : Q) (downRect : DOMRect.t)
    (pre rest : list Z) (itemIndex : Z) (new : Z * Z) (w : World) :
  Forall (passes_down s w dx dy downRect) pre ->
  walkDown s dx dy downRect (pre ++ rest) itemIndex new w
  = walkDown s dx dy downRect rest
      (itemIndex + Z.of_nat (length (real_indexes s pre)))
      (match pre with
       | [] => new
       | _ => (itemIndex + Z.of_nat (length (real_indexes s pre)),
               itemIndex + Z.of_nat (length (real_indexes s pre)))
       end) w.
Proof.
  intros Hpre. revert itemIndex new.
  induction Hpre as [| e pre (el & Hel & Hok & Hbelow & Hin) _ IH]; intros itemIndex new.
  - cbn. rewrite Z.add_0_r. reflexivity.
  - rewrite <- app_comm_cons.
    rewrite (walkDown_turn s _ _ _ e _ _ _ _ el Hel Hok). cbv zeta.
    rewrite Hbelow, Hin. rewrite IH.
    unfold real_indexes. cbn [List.filter].
    destruct (number_neq (placeholderElementIndex s) e); cbn [length].
    + rewrite Nat2Z.inj_succ.
      replace (itemIndex + 1 + Z.of_nat (length (List.filter _ pre)))
        with (itemIndex + Z.succ (Z.of_nat (length (List.filter
                (fun elementIndex => number_neq (placeholderElementIndex s) elementIndex)
                pre)))) by lia.
      destruct pre; [| reflexivity].
      cbn. replace (itemIndex + Z.succ 0) with (itemIndex + 1) by lia. reflexivity.
    + destruct pre; [| reflexivity].
      cbn. rewrite Z.add_0_r. reflexivity.
Qed.

Lemma indexesDown_split (s : DragService) (k : Z) :
  0 <= k <= maxElementIndex s ->
  indexesDown s = seqZ 0 k ++ k :: seqZ (k + 1) (maxElementIndex s - k).
Proof.
  intros Hk. unfold indexesDown.
  replace (maxElementIndex s + 1) with (k + (maxElementIndex s + 1 - k)) by lia.
  rewrite seqZ_app by lia. f_equal.
  rewrite seqZ_cons by lia. f_equal. f_equal; lia.
Qed.

Lemma passes_down_run (s : DragService) (w : World) (dx dy : Q) (downRect : DOMRect.t)
    (k : Z) :
  (forall j, 0 <= j < k -> passes_down s w dx dy downRect j) ->
  Forall (passes_down s w dx dy downRect) (seqZ 0 k).
Proof.
  intros H. apply Forall_forall. intros j Hj. apply elem_of_seqZ in Hj. apply H. lia.
Qed.

Lemma seqZ_0_nil_iff (k : Z) : 0 <= k -> (seqZ 0 k = [] <-> k = 0).
Proof.
  intros Hk. split.
  - intros H. apply (f_equal length) in H. rewrite length_seqZ in H. cbn in H. lia.
  - intros ->. reflexivity.
Qed.

(** X11.  The downward loop stops at the first element the dragged
    rectangle does not intrude on.  When every element before index [k]
    is passed and the one at [k] is not intruded on, the pair it ends with
    is the candidate it started from if [k] is 0, and otherwise twice the
    number of elements before [k] other than the placeholder: [k], or
    [k - 1] when the placeholder is among them.  When the loop runs off
    the end the same holds with [k] the number of elements.  When all
    elements before the last are passed and the dragged rectangle has left
    the list at the last, the pair is [(-2, -2)]. *)
Theorem downward_walk (s : DragService) (w : World) (dx dy : Q) (downRect : DOMRect.t)
    (new : Z * Z) (k : Z) :
  (forall j, 0 <= j < k -> passes_down s w dx dy downRect j) ->
  (0 <= k <= maxElementIndex s -> stops_down s w dx dy downRect k ->
   walkDown s dx dy downRect (indexesDown s) 0 new w
   = (Ret (if k =? 0 then new else (items_before s k, items_before s k)), w)) /\
  (0 < k -> k = maxElementIndex s + 1 ->
   walkDown s dx dy downRect (indexesDown s) 0 new w
   = (Ret (items_before s k, items_before s k), w)) /\
  (0 <= k -> k = maxElementIndex s -> ejects_down s w dx dy downRect k ->
   walkDown s dx dy downRect (indexesDown s) 0 new w = (Ret (-2, -2), w)) /\
  (0 <= k ->
   items_before s k
   = match placeholderElementIndex s with
     | Some p => if (0 <=? p) && (p <? k) then k - 1 else k
     | None => k
     end).
Proof.
  intros Hpass. pose proof (passes_down_run s w dx dy downRect k Hpass) as Hrun.
  repeat split.
  - intros Hk (el & Hel & Hok & Hbelow & Hno).
    rewrite (indexesDown_split s k Hk).
    rewrite (walkDown_passes s dx dy downRect (seqZ 0 k) _ 0 new w Hrun).
    rewrite (walkDown_turn s _ _ _ k _ _ _ _ el Hel Hok). cbv zeta.
    rewrite Hbelow, Hno. cbn [Z.add]. fold (items_before s k).
    destruct (Z.eqb_spec k 0) as [-> | Hne]; [reflexivity |].
    destruct (seqZ 0 k) eqn:E; [| reflexivity].
    apply seqZ_0_nil_iff in E; lia.
  - intros Hk Hend. unfold indexesDown. rewrite <- Hend.
    rewrite <- (app_nil_r (seqZ 0 k)).
    rewrite (walkDown_passes s dx dy downRect (seqZ 0 k) [] 0 new w Hrun).
    cbn [Z.add walkDown]. fold (items_before s k).
    destruct (seqZ 0 k) eqn:E; [| reflexivity].
    apply seqZ_0_nil_iff in E; lia.
  - intros Hk Hend (el & Hel & Hok & _ & Hbelow).
    rewrite (indexesDown_split s k) by lia.
    rewrite (walkDown_passes s dx dy downRect (seqZ 0 k) _ 0 new w Hrun).
    rewrite (walkDown_turn s _ _ _ k _ _ _ _ el Hel Hok). cbv zeta.
    rewrite Hbelow, <- Hend, Z.eqb_refl. reflexivity.
  - apply items_before_spec.
Qed.

Lemma downward_walk_witness :
  walkDown (svc world_tracking_A) 0 12 (rowAt 0) (indexesDown (svc world_tracking_A)) 0
    (-2, -2) world_tracking_A
  = (Ret (2, 2), world_tracking_A).
Proof.
  destruct (downward_walk (svc world_tracking_A) world_tracking_A 0 12 (rowAt 0)
              (-2, -2) 2) as (Hstop & _).
  - intros j Hj. assert (j = 0 \/ j = 1) as [-> | ->] by lia.
    + exists 1%nat. repeat split; vm_compute; reflexivity.
    + exists 2%nat. repeat split; vm_compute; reflexivity.
  - rewrite Hstop.
    + vm_compute. reflexivity.
    + vm_compute. split; discriminate.
    + exists 3%nat. repeat split; vm_compute; reflexivity.
Defined.

Lemma isLastPossibleElement_ok (s : DragService) (elementIndex : Z) (w : World) :
  readable_up s elementIndex ->
  isLastPossibleElement s elementIndex w = (Ret (last_possible s w elementIndex), w).
Proof.
  intros Hread. unfold isLastPossibleElement, last_possible, mbind, M_bind,
    dataset_rhahOrderableListId, mret, M_ret.
  destruct (Z.eqb_spec elementIndex 1) as [E | E]; [| reflexivity].
  destruct (Hread E) as [first Hfirst]. rewrite Hfirst. reflexivity.
Qed.

(** One turn of the upward loop. *)
Lemma walkUp_turn (s : DragService) (dx dy : Q) (downRect : DOMRect.t)
    (elementIndex : Z) (rest : list Z) (new : Z * Z) (w : World) (el : HTMLElement) :
  elements s !! elementIndex = Some el ->
  rect_accepted w el ->
  readable_up s elementIndex ->
  walkUp s dx dy downRect (elementIndex :: rest) new w
  = let targetRect := Element.boundingClientRect (element_of w el) in
    if last_possible s w elementIndex && isAbove dx dy downRect targetRect
    then (Ret (-2, -2), w)
    else if intrudesUp dy downRect targetRect
    then walkUp s dx dy downRect rest
           (getItemIndex s elementIndex, getItemIndex s elementIndex) w
    else (Ret new, w).
Proof.
  intros Hel Hok Hread. cbn. unfold mbind, M_bind. rewrite Hel.
  rewrite (getRect_ok el w Hok), (isLastPossibleElement_ok s elementIndex w Hread).
  cbv zeta.
  destruct (last_possible s w elementIndex && isAbove dx dy downRect _); [reflexivity |].
  destruct (intrudesUp dy downRect _); reflexivity.
Qed.

Lemma walkUp_passes (s : DragService) (dx dy : Q) (downRect : DOMRect.t)
    (pre rest : list Z) (new : Z * Z) (w : World) :
  Forall (passes_up s w dx dy downRect) pre ->
  walkUp s dx dy downRect (pre ++ rest) new w
  = walkUp s dx dy downRect rest
      (match last pre with
       | Some e => (getItemIndex s e, getItemIndex s e)
       | None => new
       end) w.
Proof.
  intros Hpre. revert new.
  induction Hpre as [| e pre (el & Hel & Hok & Hread & Habove & Hin) _ IH]; intros new.
  - reflexivity.
  - rewrite <- app_comm_cons.
    rewrite (walkUp_turn s _ _ _ e _ _ _ el Hel Hok Hread). cbv zeta.
    rewrite Habove, Hin, IH.
    destruct pre as [| e' pre]; [reflexivity |].
    rewrite last_cons_cons.
    destruct (last (e' :: pre)) eqn:E; [reflexivity |].
    apply last_None in E. discriminate E.
Qed.

Lemma indexesUp_split (s : DragService) (k : Z) :
  0 <= k <= maxElementIndex s ->
  indexesUp s
  = reverse (seqZ (k + 1) (maxElementIndex s - k)) ++ k :: reverse (seqZ 0 k).
Proof.
  intros Hk. unfold indexesUp. fold (indexesDown s).
  rewrite (indexesDown_split s k Hk).
  rewrite reverse_app, reverse_cons, <- app_assoc. reflexivity.
Qed.

Lemma last_reverse_seqZ (m n : Z) :
  last (reverse (seqZ m n)) = if 0 <? n then Some m else None.
Proof.
  destruct (Z.ltb_spec 0 n).
  - rewrite seqZ_cons by lia. rewrite reverse_cons. apply last_snoc.
  - unfold seqZ. replace (Z.to_nat n) with 0%nat by lia. reflexivity.
Qed.

Lemma passes_up_run (s : DragService) (w : World) (dx dy : Q) (downRect : DOMRect.t)
    (k : Z) :
  (forall j, k < j <= maxElementIndex s -> passes_up s w dx dy downRect j) ->
  Forall (passes_up s w dx dy downRect) (reverse (seqZ (k + 1) (maxElementIndex s - k))).
Proof.
  intros H. apply Forall_forall. intros j Hj.
  apply elem_of_reverse, elem_of_seqZ in Hj. apply H. lia.
Qed.

Lemma getItemIndex_0 (s : DragService) : getItemIndex s 0 = 0.
Proof.
  unfold getItemIndex, falsy_number.
  destruct (placeholderElementIndex s) as [p |]; [| reflexivity].
  destruct (Z.eqb_spec p 0); [reflexivity |].
  destruct (Z.gtb_spec p 0); [reflexivity |].
  destruct (Z.ltb_spec p 0); [reflexivity | lia].
Qed.

(** X12.  The upward loop stops at the first element, from the last one
    up, that the dragged rectangle does not intrude on.  When every
    element after index [k] is passed and the one at [k] is not intruded
    on, the pair it ends with is the candidate it started from if [k] is
    the last index, and otherwise twice [getItemIndex] of [k + 1].  When
    every element is passed the pair is [(0, 0)].  When the elements after
    [k] are passed, [k] is a last possible element and the dragged
    rectangle has left the list there, the pair is [(-2, -2)]. *)
Theorem upward_walk (s : DragService) (w : World) (dx dy : Q) (downRect : DOMRect.t)
    (new : Z * Z) (k : Z) :
  (forall j, k < j <= maxElementIndex s -> passes_up s w dx dy downRect j) ->
  (0 <= k <= maxElementIndex s -> stops_up s w dx dy downRect k ->
   walkUp s dx dy downRect (indexesUp s) new w
   = (Ret (if k =? maxElementIndex s then new
           else (getItemIndex s (k + 1), getItemIndex s (k + 1))), w)) /\
  (k = -1 -> 0 <= maxElementIndex s ->
   walkUp s dx dy downRect (indexesUp s) new w = (Ret (0, 0), w)) /\
  (0 <= k <= maxElementIndex s -> ejects_up s w dx dy downRect k ->
   walkUp s dx dy downRect (indexesUp s) new w = (Ret (-2, -2), w)).
Proof.
  intros Hpass. pose proof (passes_up_run s w dx dy downRect k Hpass) as Hrun.
  repeat split.
  - intros Hk (el & Hel & Hok & Hread & Habove & Hno).
    rewrite (indexesUp_split s k Hk).
    rewrite (walkUp_passes s dx dy downRect _ _ new w Hrun).
    rewrite (walkUp_turn s _ _ _ k _ _ _ el Hel Hok Hread). cbv zeta.
    rewrite Habove, Hno, last_reverse_seqZ.
    destruct (Z.eqb_spec k (maxElementIndex s)) as [E | E];
      destruct (Z.ltb_spec 0 (maxElementIndex s - k)); try lia; reflexivity.
  - intros -> Hmax. unfold indexesUp.
    replace (seqZ 0 (maxElementIndex s + 1))
      with (seqZ (-1 + 1) (maxElementIndex s - -1)) by (f_equal; lia).
    rewrite <- (app_nil_r (reverse _)).
    rewrite (walkUp_passes s dx dy downRect _ [] new w Hrun).
    rewrite last_reverse_seqZ.
    destruct (Z.ltb_spec 0 (maxElementIndex s - -1)); [| lia].
    cbn [Z.add walkUp]. rewrite getItemIndex_0. reflexivity.
  - intros Hk (el & Hel & Hok & Hread & Hlast & Habove).
    rewrite (indexesUp_split s k Hk).
    rewrite (walkUp_passes s dx dy downRect _ _ new w Hrun).
    rewrite (walkUp_turn s _ _ _ k _ _ _ el Hel Hok Hread). cbv zeta.
    rewrite Hlast, Habove. reflexivity.
Qed.

Lemma upward_walk_witness :
  walkUp (svc world_B_at_top) 0 (-8) (rowAt 20) (indexesUp (svc world_B_at_top))
    (-2, -2) world_B_at_top
  = (Ret (3, 3), world_B_at_top).
Proof.
  destruct (upward_walk (svc world_B_at_top) world_B_at_top 0 (-8) (rowAt 20)
              (-2, -2) 2) as (Hstop & _).
  - intros j Hj.
    assert (maxElementIndex (svc world_B_at_top) = 3) as Hmax by reflexivity.
    rewrite Hmax in Hj. assert (j = 3) as -> by lia.
    exists 3%nat. split; [reflexivity |]. split; [vm_compute; reflexivity |].
    split; [intros H; discriminate H |]. split; vm_compute; reflexivity.
  - rewrite Hstop.
    + vm_compute. reflexivity.
    + vm_compute. split; discriminate.
    + exists 2%nat. split; [reflexivity |]. split; [vm_compute; reflexivity |].
      split; [intros H; discriminate H |]. split; vm_compute; reflexivity.
Defined.

(** ** The registry and the render *)

(** The registrations of a render that fit below the maximum. *)
Lemma pushElements_runs (mounted : list HTMLElement) (start : Z) (w : World) :
  start + Z.of_nat (length mounted) <= maxElementIndex (svc w) + 1 ->
  exists w' registry,
    pushElements mounted start w = (Ret tt, w') /\
    svc w' = with_elements registry (svc w) /\
    dom w' = dom w /\ listeners w' = listeners w /\
    (forall k el, mounted !! k = Some el -> registry !! (start + Z.of_nat k) = Some el) /\
    (forall j, j < start \/ start + Z.of_nat (length mounted) <= j ->
               registry !! j = elements (svc w) !! j).
Proof.
  revert start w. induction mounted as [| el mounted IH]; intros start w Hfit.
  - exists w, (elements (svc w)). cbn. repeat split; try discriminate.
    destruct (svc w); reflexivity.
  - cbn [length] in Hfit. cbn [pushElements]. unfold mbind at 1, M_bind.
    unfold pushElement, mbind, M_bind, this, assign.
    replace (start >? maxElementIndex (svc w)) with false
      by (symmetry; rewrite Z.gtb_ltb; apply Z.ltb_ge; lia).
    match goal with |- context [pushElements mounted (start + 1) ?w1] =>
      destruct (IH (start + 1) w1) as (w' & registry & Hrun & Hsvc & Hdom & Hls & Hin & Hout)
    end; [cbn; lia |].
    exists w', registry. split; [exact Hrun |].
    split; [rewrite Hsvc; reflexivity |].
    split; [exact Hdom |]. split; [exact Hls |].
    split.
    + intros [| k] el' Hk.
      * injection Hk as <-. rewrite Hout by lia. cbn. rewrite Z.add_0_r.
        apply lookup_insert_eq.
      * cbn in Hk. rewrite <- (Hin k el' Hk). f_equal. lia.
    + intros j Hj. rewrite Hout by (cbn [length] in Hj; lia). cbn.
      apply lookup_insert_ne. cbn [length] in Hj. lia.
Qed.

(** The guard of [getItemProps] lets the indexes of the entries through and
    changes nothing. *)
Lemma getItemPropsFrom_runs (entries : list Entry) (mounted : list HTMLElement)
    (start : Z) (w : World) :
  0 <= start ->
  start + Z.of_nat (length mounted) <= Z.of_nat (length entries) ->
  getItemPropsFrom entries mounted start w = (Ret tt, w).
Proof.
  revert start. induction mounted as [| el mounted IH]; intros start Hstart Hfit.
  - reflexivity.
  - cbn [length] in Hfit. cbn [getItemPropsFrom]. unfold mbind at 1, M_bind.
    unfold getItemProps. cbv zeta.
    replace (start <? 0) with false by (symmetry; apply Z.ltb_ge; lia).
    destruct (lookup_lt_is_Some_2 entries (Z.to_nat start)) as [item Hitem]; [lia |].
    rewrite Hitem. cbn. apply IH; lia.
Qed.

(** It throws at the first index past the entries, and has changed nothing
    by then. *)
Lemma getItemPropsFrom_overflows (entries : list Entry) (mounted : list HTMLElement)
    (start : Z) (w : World) :
  0 <= start <= Z.of_nat (length entries) ->
  Z.of_nat (length entries) < start + Z.of_nat (length mounted) ->
  getItemPropsFrom entries mounted start w
  = (Throw (NoItemAtIndex (Z.of_nat (length entries)) (Z.of_nat (length entries) - 1)), w).
Proof.
  revert start. induction mounted as [| el mounted IH]; intros start Hstart Hover.
  - cbn in Hover. lia.
  - cbn [length] in Hover. cbn [getItemPropsFrom]. unfold mbind at 1, M_bind.
    unfold getItemProps. cbv zeta.
    replace (start <? 0) with false by (symmetry; apply Z.ltb_ge; lia).
    destruct (entries !! Z.to_nat start) as [item |] eqn:Hitem.
    + apply lookup_lt_Some in Hitem. cbn. apply IH; lia.
    + apply lookup_ge_None in Hitem.
      assert (start = Z.of_nat (length entries)) as -> by lia. reflexivity.
Qed.

Lemma resetElementList_runs (ids : list string) (w : World) :
  resetElementList ids w
  = (Ret tt,
     mkWorld (with_maxElementIndex (Z.of_nat (length ids) - 1)
                (with_orderedElementIds ids (svc w)))
             (dom w) (listeners w) (node_env_test w)
             ((trace w ++ [Assign F_orderedElementIds]) ++ [Assign F_maxElementIndex])).
Proof. reflexivity. Qed.

(** X13.  A render with no more mounted elements than displayed entries
    returns the entries: the engine then holds their identifiers in order,
    the maximum index is one less than their number, the registry maps the
    index of every mounted element to it, and what the registry held at
    other indexes is still there: a render clears nothing. *)
Theorem render_registers (items : list string) (placeholderIndex : Z) (short : string)
    (mounted : list HTMLElement) (w : World) :
  let entries := insertPlaceholders items placeholderIndex (downRect (svc w)) short in
  (length mounted <= length entries)%nat ->
  exists w',
    render items placeholderIndex short mounted w = (Ret entries, w') /\
    orderedElementIds (svc w') = map entry_id entries /\
    maxElementIndex (svc w') = Z.of_nat (length entries) - 1 /\
    (forall k el, mounted !! k = Some el -> elements (svc w') !! Z.of_nat k = Some el) /\
    (forall j, j < 0 \/ Z.of_nat (length mounted) <= j ->
               elements (svc w') !! j = elements (svc w) !! j) /\
    dom w' = dom w /\ listeners w' = listeners w.
Proof.
  intros entries Hfit.
  unfold render, mbind, M_bind, this. fold entries.
  rewrite resetElementList_runs. cbv beta iota.
  rewrite getItemPropsFrom_runs by lia. cbv beta iota.
  match goal with |- context [pushElements mounted 0 ?w1] =>
    destruct (pushElements_runs mounted 0 w1) as (w' & registry & Hrun & Hsvc & Hdom & Hls & Hin & Hout)
  end; [cbn; rewrite length_map; lia |].
  rewrite Hrun. cbn in Hsvc, Hdom, Hls, Hout.
  exists w'. split; [reflexivity |].
  rewrite Hsvc. cbn. rewrite length_map.
  split; [reflexivity |]. split; [reflexivity |].
  split; [intros k el Hk; apply (Hin k el Hk) |].
  split; [intros j Hj; apply Hout; lia |].
  split; assumption.
Qed.

Lemma render_registers_witness :
  exists w',
    render ["A"; "B"; "C"] 2 "1" [1%nat; 2%nat; 4%nat; 3%nat] world_tracking_A
    = (Ret [Item "A"; Item "B"; Placeholder "rhah-placeholder-1"; Item "C"], w') /\
    maxElementIndex (svc w') = 3 /\
    elements (svc w') !! 2 = Some 4%nat.
Proof.
  destruct (render_registers ["A"; "B"; "C"] 2 "1" [1%nat; 2%nat; 4%nat; 3%nat]
              world_tracking_A) as (w' & Hrun & _ & Hmax & Hin & _).
  - vm_compute. lia.
  - exists w'. split; [exact Hrun |]. split; [exact Hmax |].
    apply (Hin 2%nat 4%nat). reflexivity.
Defined.

(** X14.  A render that displays more elements than there are entries
    throws while it renders, from the guard of [getItemProps] at the first
    index past the entries.  By then the engine has been told the
    identifiers and the maximum index of the new entries, and nothing else
    has happened: no callback ref has run, the registry is as it was. *)
Theorem render_overflows (items : list string) (placeholderIndex : Z) (short : string)
    (mounted : list HTMLElement) (w : World) :
  let entries := insertPlaceholders items placeholderIndex (downRect (svc w)) short in
  (length entries < length mounted)%nat ->
  exists w',
    render items placeholderIndex short mounted w
    = (Throw (NoItemAtIndex (Z.of_nat (length entries)) (Z.of_nat (length entries) - 1)),
       w') /\
    orderedElementIds (svc w') = map entry_id entries /\
    maxElementIndex (svc w') = Z.of_nat (length entries) - 1 /\
    elements (svc w') = elements (svc w) /\
    dom w' = dom w /\ listeners w' = listeners w.
Proof.
  intros entries Hover.
  unfold render, mbind, M_bind, this. fold entries.
  rewrite resetElementList_runs. cbv beta iota.
  rewrite getItemPropsFrom_overflows by lia.
  eexists. split; [reflexivity |]. cbn. rewrite length_map. repeat split.
Qed.

Lemma render_overflows_witness :
  exists w',
    render ["A"; "B"; "C"] (-1) "0" [1%nat; 2%nat; 3%nat; 4%nat] (world_ABC default_options)
    = (Throw (NoItemAtIndex 3 2), w') /\
    elements (svc w') = ∅.
Proof.
  destruct (render_overflows ["A"; "B"; "C"] (-1) "0" [1%nat; 2%nat; 3%nat; 4%nat]
              (world_ABC default_options)) as (w' & Hrun & _ & _ & Hregistry & _).
  - vm_compute. lia.
  - exists w'. split; [exact Hrun |]. rewrite Hregistry. reflexivity.
Defined.

(** ** The placeholder in the displayed sequence *)

Lemma isPlaceholderId_fresh (short : string) :
  isPlaceholderId ("rhah-placeholder-" ++ short)%string = true.
Proof. destruct short; reflexivity. Qed.

Lemma insertPlaceholders_ids (items : list string) (placeholderIndex : Z)
    (rect : DOMRect.t) (short : string) :
  0 <= placeholderIndex ->
  map entry_id (insertPlaceholders items placeholderIndex (Some rect) short)
  = take (Z.to_nat placeholderIndex) items
    ++ ("rhah-placeholder-" ++ short)%string :: drop (Z.to_nat placeholderIndex) items.
Proof.
  intros Hidx. unfold insertPlaceholders.
  replace (placeholderIndex <? 0) with false by (symmetry; apply Z.ltb_ge; lia).
  cbn [orb negb]. rewrite bool_decide_eq_true_2 by (eexists; reflexivity). cbn [negb].
  rewrite !map_app, !map_map. cbn. rewrite !map_id. reflexivity.
Qed.

(** X15.  Without a down rectangle or with a negative index the displayed
    entries are the items.  Otherwise they are the items with one
    placeholder entry spliced in at the index (at the end when the index
    is beyond the items): one entry more, the items in their order once
    the placeholder entry is taken out again, and, when no item identifier
    has the placeholder prefix, exactly one placeholder identifier, which
    [withoutPlaceholderIds] removes to give back the item identifiers. *)
Theorem insertPlaceholders_round_trip (items : list string) (placeholderIndex : Z)
    (rect : DOMRect.t) (short : string) :
  insertPlaceholders items placeholderIndex None short = map Item items /\
  (placeholderIndex < 0 ->
   insertPlaceholders items placeholderIndex (Some rect) short = map Item items) /\
  (0 <= placeholderIndex ->
   let entries := insertPlaceholders items placeholderIndex (Some rect) short in
   length entries = S (length items) /\
   entries !! Nat.min (Z.to_nat placeholderIndex) (length items)
   = Some (Placeholder ("rhah-placeholder-" ++ short)%string) /\
   List.filter (fun e => negb (isPlaceholder e)) entries = map Item items /\
   (Forall (fun id => isPlaceholderId id = false) items ->
    length (List.filter isPlaceholderId (map entry_id entries)) = 1%nat /\
    withoutPlaceholderIds (map entry_id entries) = items)).
Proof.
  split.
  { unfold insertPlaceholders. rewrite orb_true_r. reflexivity. }
  split.
  { intros H. unfold insertPlaceholders.
    replace (placeholderIndex <? 0) with true by (symmetry; apply Z.ltb_lt; lia).
    reflexivity. }
  intros Hidx. cbv zeta.
  pose proof (insertPlaceholders_ids items placeholderIndex rect short Hidx) as Hids.
  unfold insertPlaceholders in *.
  replace (placeholderIndex <? 0) with false in * by (symmetry; apply Z.ltb_ge; lia).
  cbn [orb negb] in *.
  rewrite bool_decide_eq_true_2 in * by (eexists; reflexivity). cbn [negb] in *.
  set (n := Z.to_nat placeholderIndex) in *.
  assert (forall l : list string,
            List.filter (fun e => negb (isPlaceholder e)) (map Item l) = map Item l) as Hreal.
  { induction l as [| a l IH]; cbn; [reflexivity | f_equal; exact IH]. }
  repeat split.
  - rewrite !length_app. cbn [length]. rewrite !length_map, length_take, length_drop.
    lia.
  - rewrite lookup_app_r; rewrite length_map, length_take; [| lia].
    replace (Nat.min n (length items) - Nat.min n (length items))%nat with 0%nat by lia.
    reflexivity.
  - rewrite List.filter_app. cbn [app List.filter isPlaceholder negb].
    rewrite !Hreal, <- map_app, take_drop. reflexivity.
  - rewrite Hids, List.filter_app. cbn [List.filter].
    rewrite isPlaceholderId_fresh.
    assert (forall l : list string,
              Forall (fun id => isPlaceholderId id = false) l ->
              List.filter isPlaceholderId l = []) as Hnone.
    { induction 1 as [| a l Ha _ IH]; cbn; [reflexivity | rewrite Ha; exact IH]. }
    rewrite !Hnone; [reflexivity | |].
    + apply Forall_drop. assumption.
    + apply Forall_take. assumption.
  - rewrite Hids.
    rewrite withoutPlaceholderIds_split;
      [apply take_drop | apply isPlaceholderId_fresh | |].
    + apply Forall_take. assumption.
    + apply Forall_drop. assumption.
Qed.

Lemma insertPlaceholders_round_trip_witness :
  insertPlaceholders ["A"; "B"; "C"] 7 (Some (rowAt 0)) "1"
  = [Item "A"; Item "B"; Item "C"; Placeholder "rhah-placeholder-1"] /\
  withoutPlaceholderIds
    (map entry_id (insertPlaceholders ["A"; "B"; "C"] 1 (Some (rowAt 0)) "1"))
  = ["A"; "B"; "C"].
Proof.
  split; [reflexivity |].
  destruct (insertPlaceholders_round_trip ["A"; "B"; "C"] 1 (rowAt 0) "1")
    as (_ & _ & H).
  destruct H as (_ & _ & _ & H); [lia |].
  apply H. repeat constructor.
Defined.

(** X16.  Release after a render: for items without the placeholder
    prefix, the order committed for the displayed sequence with the
    placeholder at item index [i] is the items before [i] without the
    dragged one, the dragged one, and the items from [i] on without the
    dragged one.  For distinct items this is a permutation of the items,
    and a placeholder just before or just after the dragged item commits
    the items unchanged. *)
Theorem drop_moves_the_dragged_item (items : list string) (droppedId : string)
    (placeholderIndex : Z) (rect : DOMRect.t) (short : string) :
  Forall (fun id => isPlaceholderId id = false) items ->
  droppedId ∈ items ->
  0 <= placeholderIndex ->
  let displayed :=
    map entry_id (insertPlaceholders items placeholderIndex (Some rect) short) in
  commitOrder displayed droppedId
  = without (take (Z.to_nat placeholderIndex) items) droppedId
    ++ droppedId :: without (drop (Z.to_nat placeholderIndex) items) droppedId /\
  (NoDup items -> Permutation (commitOrder displayed droppedId) items) /\
  (forall before after,
     NoDup items -> items = before ++ droppedId :: after ->
     placeholderIndex = Z.of_nat (length before) \/
     placeholderIndex = Z.of_nat (length before) + 1 ->
     commitOrder displayed droppedId = items).
Proof.
  intros Hreal Hin Hidx. cbv zeta.
  rewrite insertPlaceholders_ids by exact Hidx.
  assert (isPlaceholderId droppedId = false) as Hd.
  { rewrite Forall_forall in Hreal. apply Hreal. exact Hin. }
  assert (commitOrder
            (take (Z.to_nat placeholderIndex) items
             ++ ("rhah-placeholder-" ++ short)%string
                :: drop (Z.to_nat placeholderIndex) items) droppedId
          = without (take (Z.to_nat placeholderIndex) items) droppedId
            ++ droppedId :: without (drop (Z.to_nat placeholderIndex) items) droppedId)
    as Hcommit.
  { apply commitOrder_split;
      [apply isPlaceholderId_fresh | exact Hd | apply Forall_take | apply Forall_drop];
      assumption. }
  split; [exact Hcommit |].
  split.
  { intros Hnd. rewrite Hcommit, <- Permutation_middle, <- without_app, take_drop.
    apply without_Permutation; assumption. }
  intros before after Hnd -> Hwhere. rewrite Hcommit.
  apply NoDup_app in Hnd as (_ & Hdisj & Hnd).
  apply NoDup_cons in Hnd as [Hafter _].
  assert (droppedId ∉ before) as Hbefore by (intros H; apply (Hdisj _ H); left).
  destruct Hwhere as [-> | ->].
  - rewrite Nat2Z.id, take_app_length, drop_app_length.
    unfold without at 2. cbn. rewrite String.eqb_refl. cbn.
    fold (without after droppedId).
    rewrite !without_absent by assumption. reflexivity.
  - replace (Z.to_nat (Z.of_nat (length before) + 1)) with (length (before ++ [droppedId]))
      by (rewrite length_app; cbn; lia).
    replace (before ++ droppedId :: after) with ((before ++ [droppedId]) ++ after)
      by (rewrite <- app_assoc; reflexivity).
    rewrite take_app_length, drop_app_length, without_app.
    unfold without at 2. cbn. rewrite String.eqb_refl. cbn.
    rewrite app_nil_r, !without_absent by assumption.
    rewrite <- app_assoc. reflexivity.
Qed.

Lemma drop_moves_the_dragged_item_witness :
  commitOrder (map entry_id (insertPlaceholders ["A"; "B"; "C"] 3 (Some (rowAt 0)) "1")) "A"
  = ["B"; "C"; "A"] /\
  commitOrder (map entry_id (insertPlaceholders ["A"; "B"; "C"] 1 (Some (rowAt 0)) "1")) "A"
  = ["A"; "B"; "C"].
Proof.
  assert (Forall (fun id => isPlaceholderId id = false) ["A"; "B"; "C"]) as Hreal
    by (repeat constructor).
  assert ("A" ∈ ["A"; "B"; "C"]) as Hin by (left).
  split.
  - destruct (drop_moves_the_dragged_item ["A"; "B"; "C"] "A" 3 (rowAt 0) "1"
                Hreal Hin) as [H _]; [lia |].
    rewrite H. reflexivity.
  - destruct (drop_moves_the_dragged_item ["A"; "B"; "C"] "A" 1 (rowAt 0) "1"
                Hreal Hin) as (_ & _ & H); [lia |].
    apply (H [] ["B"; "C"]); [| reflexivity | right; reflexivity].
    apply (bool_decide_unpack _). vm_compute. exact I.
Defined.

(** X17.  A release outside the ejected state whose ordered sequence holds
    no placeholder identifier commits the sequence without the dragged
    identifier: [findIndex] answers [-1], the assignment at that index adds
    no entry, and the dragged item is lost from the committed order. *)
Theorem release_without_placeholder_loses_item (w : World) (droppedId : string) :
  release_ready (svc w) ->
  draggingId (svc w) = Some droppedId ->
  placeholderItemIndex (svc w) <> Some (-2) ->
  Forall (fun id => isPlaceholderId id = false) (orderedElementIds (svc w)) ->
  exists w',
    handleUp_body w = (Ret tt, w') /\
    committed w' = Some (without (orderedElementIds (svc w)) droppedId) /\
    (droppedId ∉ without (orderedElementIds (svc w)) droppedId).
Proof.
  intros Hready Hd Hnot Hreal.
  destruct (release_ready_inv _ Hready)
    as (move & up_ & el & d & i & j & Hm & Hu & He & Hd' & Hne & Hi & Hj).
  assert (d = droppedId) by congruence. subst d.
  destruct (handleUp_body_runs w move up_ el droppedId i j Hm Hu He Hd Hne Hi Hj)
    as (w' & Hrun & Htrace & _).
  exists w'. split; [exact Hrun |]. split; [| apply without_not_elem].
  unfold committed. rewrite Htrace, last_dragEnd_calls_release.
  unfold committedOrder. rewrite bool_decide_eq_false_2 by exact Hnot.
  unfold commitOrder.
  rewrite findIndex_none by (apply without_Forall; exact Hreal).
  reflexivity.
Qed.

Lemma release_without_placeholder_loses_item_witness :
  exists w',
    handleUp_body world_before_second_release = (Ret tt, w') /\
    committed w' = Some ["A"; "C"].
Proof.
  destruct (release_without_placeholder_loses_item world_before_second_release "B")
    as (w' & Hrun & Hc & _).
  - ready.
  - reflexivity.
  - vm_compute. discriminate.
  - vm_compute. repeat constructor.
  - exists w'. split; [exact Hrun |]. rewrite Hc. vm_compute. reflexivity.
Defined.

(** ** The gap *)




(** * The drag of the first of three rows past the second *)

(** ** Rectangles of the column *)




(** Short of the threshold of the last row of the column, straight below
    the press, the dragged rectangle has not left the list. *)
Lemma isBelow_last_row (dx dy : Q) (rA rB rC : DOMRect.t) :
  column rA rB rC -> (dx == 0)%Q ->
  intrudesDown dy rA rC = false ->
  isBelow dx dy rA rC = false.
Proof.
  intros ([HhAB HgAB] & [HhBC HgBC] & Hh & Htop & HbA & HbB & HbC & HlC & HrrC & Hlr)
    Hdx HnotC.
  assert (~ (DOMRect.top rC + DOMRect.height rA / 2 < DOMRect.bottom rA + dy)%Q) as H.
  { intros H. apply intrudesDown_spec in H. congruence. }
  apply isBelow_false; lra_half.
Qed.

Lemma column_bottoms (rA rB rC : DOMRect.t) :
  column rA rB rC ->
  (0 < DOMRect.bottom rA)%Q /\ (0 < DOMRect.bottom rB)%Q /\ (0 < DOMRect.bottom rC)%Q.
Proof.
  intros ([HhAB HgAB] & [HhBC HgBC] & Hh & Htop & HbA & HbB & HbC & _). repeat split; lra.
Qed.

(** ** The loop over the rows, by stage *)

Section Rows.
Variables (s : DragService) (w : World) (dx dy : Q) (new : Z * Z).
Variables (eA eB eC : HTMLElement) (rA rB rC : DOMRect.t).
Hypothesis HrA : Element.boundingClientRect (element_of w eA) = rA.
Hypothesis HrB : Element.boundingClientRect (element_of w eB) = rB.
Hypothesis HrC : Element.boundingClientRect (element_of w eC) = rC.
Hypothesis Hcolumn : column rA rB rC.
Hypothesis Hdx : (dx == 0)%Q.
Hypothesis Hdy : (0 <= dy)%Q.
Hypothesis HnotC : intrudesDown dy rA rC = false.

Lemma rows_accepted : rect_accepted w eA /\ rect_accepted w eB /\ rect_accepted w eC.
Proof.
  repeat split; apply rect_accepted_positive;
    rewrite ?HrA, ?HrB, ?HrC; apply (column_bottoms rA rB rC Hcolumn).
Qed.


Let HokA : rect_accepted w eA := proj1 rows_accepted.
Let HokB : rect_accepted w eB := proj1 (proj2 rows_accepted).
Let HokC : rect_accepted w eC := proj2 (proj2 rows_accepted).
Let Hbelow : isBelow dx dy rA rC = false := isBelow_last_row dx dy rA rB rC Hcolumn Hdx HnotC.



End Rows.

(** ** A move of the drag *)


Section Drag.
Variables (onDragTo : Callback) (node : string -> HTMLElement) (x y : Q).
Variables (rA rB rC : DOMRect.t) (calls : list Z).
Hypothesis Hcolumn : column rA rB rC.


End Drag.

(** ** The render after a report *)




(** ** One step of the drag, and all of them *)

Section Steps.
Variables (onDragTo : Callback) (node : string -> HTMLElement) (x y : Q).
Variables (rA rB rC : DOMRect.t) (calls : list Z).
Hypothesis Hcolumn : column rA rB rC.



End Steps.

(** ** The press *)




(** ** The drag and the release *)





(** The engine must not have recorded a placeholder index before.  On the
    engine of a first drag of [A] past [B] the indexes stay at 2 after the
    release, so the same drag made again computes the recorded index:
    nothing is reported, no placeholder is rendered, and the release
    commits [B, C]. *)
Lemma drag_A_past_B_twice_loses_A :
  world_A_past_B_twice = snd (drag_A_past_B_twice (world_ABC default_options)) /\
  dragTo_calls (trace world_A_past_B_twice) = [2] /\
  dragEnd_calls (trace world_A_past_B_twice) = [["B"; "A"; "C"]; ["B"; "C"]].
Proof. repeat split; by_computation. Qed.
